(** * ngx_http_auth_cas_module: the cookie scanner, the login URL builder and
      the access handler, embedded from [src/ngx_http_auth_cas_module.c].

    C pointers into a string are offsets into the list of bytes readable from
    its [data] pointer; [size_t] is [N] with the wrap-around of LP64 written
    out where a difference or a sum can leave the range; the request pool is an
    allocator whose failures are chosen by the environment. *)

From Stdlib Require Import Strings.String.
From Stdlib Require Import List Bool Arith NArith ZArith Lia.
From Stdlib Require Import Strings.Byte.
Import ListNotations.

Set Implicit Arguments.

(** ** Bytes and strings *)

Definition u_char := byte.

(** A C string literal, without its terminator. *)
Definition bytes (s : string) : list u_char := list_byte_of_string s.
Arguments bytes s%_string.

(** [size_t] arithmetic: 64 bits, unsigned. *)
Definition SIZE_WIDTH : N := 64.
Definition size_t (n : Z) : N := Z.to_N (n mod 2 ^ Z.of_N SIZE_WIDTH).

(** [(size_t) (p - q)] for two offsets into the same memory. *)
Definition ptrdiff (p q : nat) : N := size_t (Z.of_nat p - Z.of_nat q).

(** [ngx_str_t]: [data = None] is the NULL pointer; otherwise [data] holds the
    bytes that can be read from the pointer on, the first [len] of which are
    the string.  What lies behind them (a terminator, the rest of a buffer) is
    part of [data] too, since the code below reads it. *)
Record ngx_str_t := { len : N; data : option (list u_char) }.

Definition ngx_null_string : ngx_str_t := {| len := 0; data := None |}.

(** [ngx_string("...")]: a literal, the terminator behind it. *)
Definition ngx_string (s : list u_char) : ngx_str_t :=
  {| len := N.of_nat (length s); data := Some (s ++ [x00]) |}.

Definition mem_of (s : ngx_str_t) : list u_char :=
  match data s with Some m => m | None => [] end.

(** The bytes of a string: what a reader of [len] bytes from [data] gets. *)
Definition ngx_str_bytes (s : ngx_str_t) : list u_char :=
  firstn (N.to_nat (len s)) (mem_of s).

(** ** The request pool *)

(** The pool serves allocation requests in sequence; [pool_fails k] tells
    whether request number [k] is refused, [pool_fill k i] is what cell [i] of
    the block handed out for request [k] holds before it is written.
    [pool_damage] collects the bytes that were stored behind the end of a
    block, into pool memory that was never handed out for them. *)
Record ngx_pool_t := {
  pool_fails  : nat -> bool;
  pool_fill   : nat -> nat -> u_char;
  pool_calls  : nat;
  pool_damage : list u_char
}.

Definition pool_next (p : ngx_pool_t) : ngx_pool_t :=
  {| pool_fails := pool_fails p; pool_fill := pool_fill p;
     pool_calls := S (pool_calls p); pool_damage := pool_damage p |}.

(** [ngx_pnalloc]: an uninitialised block of [size] bytes, or NULL. *)
Definition ngx_pnalloc (p : ngx_pool_t) (size : N) : option (list u_char) * ngx_pool_t :=
  (if pool_fails p (pool_calls p) then None
   else Some (map (pool_fill p (pool_calls p)) (seq 0 (N.to_nat size))),
   pool_next p).

(** [ngx_pcalloc]: as [ngx_pnalloc], the block zeroed. *)
Definition ngx_pcalloc (p : ngx_pool_t) (size : N) : option (list u_char) * ngx_pool_t :=
  (if pool_fails p (pool_calls p) then None
   else Some (repeat x00 (N.to_nat size)),
   pool_next p).

(** ** Writing into a block *)

(** A write pointer [pos] into an allocated [block].  Bytes stored at or past
    the end of the block do not land in it: they are kept, in order, in
    [overrun]. *)
Record cursor := { block : list u_char; pos : nat; overrun : list u_char }.

Definition cursor_at (b : list u_char) : cursor :=
  {| block := b; pos := 0; overrun := [] |}.

Fixpoint store (l : list u_char) (i : nat) (b : u_char) : list u_char :=
  match l, i with
  | [], _ => []
  | _ :: l', O => b :: l'
  | c :: l', S i' => c :: store l' i' b
  end.

(** [*p++ = b] *)
Definition put (b : u_char) (c : cursor) : cursor :=
  if pos c <? length (block c)
  then {| block := store (block c) (pos c) b; pos := S (pos c); overrun := overrun c |}
  else {| block := block c; pos := S (pos c); overrun := overrun c ++ [b] |}.

(** [*p = b] *)
Definition poke (b : u_char) (c : cursor) : cursor :=
  {| block := block (put b c); pos := pos c; overrun := overrun (put b c) |}.

Fixpoint put_all (bs : list u_char) (c : cursor) : cursor :=
  match bs with
  | [] => c
  | b :: bs' => put_all bs' (put b c)
  end.

(** The writes through [c] are over: what ran over the block is damage. *)
Definition written (p : ngx_pool_t) (c : cursor) : ngx_pool_t :=
  {| pool_fails := pool_fails p; pool_fill := pool_fill p;
     pool_calls := pool_calls p; pool_damage := pool_damage p ++ overrun c |}.

(** ** libc *)

(** [isspace] in the C locale. *)
Definition isspace (c : u_char) : bool :=
  match c with
  | x09 | x0a | x0b | x0c | x0d | x20 => true
  | _ => false
  end.

(** Outcome of code that dereferences pointers: it runs to a result, or it
    touches a byte outside the readable memory, or the iteration budget given
    to a loop of the model is used up. *)
Inductive exec (A : Type) : Type :=
| Ret (a : A)
| Segv
| Fuel.
Arguments Ret {A} a.
Arguments Segv {A}.
Arguments Fuel {A}.

Definition bind {A B : Type} (e : exec A) (k : A -> exec B) : exec B :=
  match e with
  | Ret a => k a
  | Segv => Segv
  | Fuel => Fuel
  end.

Notation "x <- e ;; k" := (bind e (fun x => k))
  (at level 61, e at next level, right associativity).
Notation "' pat <- e ;; k" := (bind e (fun x => match x with pat => k end))
  (at level 61, pat pattern, e at next level, right associativity).

(** Reading [n] bytes from a pointer with [m] the memory readable there. *)
Definition read (m : list u_char) (n : N) : exec (list u_char) :=
  if (n <=? N.of_nat (length m))%N then Ret (firstn (N.to_nat n) m) else Segv.

(** [ngx_cpymem(dst, src, n)]: copies [n] bytes and returns the advanced
    destination. *)
Definition ngx_cpymem (dst : cursor) (src : list u_char) (n : N) : exec cursor :=
  bs <- read src n ;; Ret (put_all bs dst).

(** The white space skip of line 36, [m] the memory from [start] on.
    The loop has no bound of its own: it stops at the first byte that is not
    white space. *)
Fixpoint skip_space (m : list u_char) (start : nat) : exec nat :=
  match m with
  | [] => Segv
  | c :: m' => if isspace c then skip_space m' (S start) else Ret start
  end.

(** [memchr(s, c, n)] with [m] the memory from [s] on: the offset of the first
    [c] among the next [n] bytes, or NULL. *)
Fixpoint memchr (m : list u_char) (s : nat) (c : u_char) (n : N) : exec (option nat) :=
  if (n =? 0)%N then Ret None
  else match m with
       | [] => Segv
       | b :: m' => if Byte.eqb b c then Ret (Some s) else memchr m' (S s) c (N.pred n)
       end.

Fixpoint bytes_eqb (a b : list u_char) : bool :=
  match a, b with
  | [], [] => true
  | x :: a', y :: b' => Byte.eqb x y && bytes_eqb a' b'
  | _, _ => false
  end.

(** [ngx_memcmp(s1, s2, n) == 0] *)
Definition ngx_memcmp0 (s1 s2 : list u_char) (n : N) : bool :=
  bytes_eqb (firstn (N.to_nat n) s1) (firstn (N.to_nat n) s2).

(** ** nginx data the module works on *)

Record ngx_table_elt_t := { hash : N; key : ngx_str_t; value : ngx_str_t }.

Record ngx_http_headers_out_t := {
  headers  : list ngx_table_elt_t;
  location : option ngx_table_elt_t
}.

(** The module's location configuration. *)
Record ngx_http_auth_cas_ctx_t := {
  auth_cas             : Z;
  auth_cas_cookie      : ngx_str_t;
  auth_cas_login_url   : ngx_str_t;
  auth_cas_service_url : ngx_str_t
}.

(** The request, as far as the module reads and writes it.  [cookies] lists
    the table elements that the loop of [find_cookie] walks, in that order. *)
Record ngx_http_request_t := {
  pool        : ngx_pool_t;
  cookies     : list ngx_table_elt_t;
  uri         : ngx_str_t;
  args        : ngx_str_t;
  headers_out : ngx_http_headers_out_t;
  loc_conf    : ngx_http_auth_cas_ctx_t
}.

Definition with_pool (r : ngx_http_request_t) (p : ngx_pool_t) : ngx_http_request_t :=
  {| pool := p; cookies := cookies r; uri := uri r; args := args r;
     headers_out := headers_out r; loc_conf := loc_conf r |}.

(** ** find_cookie *)

(** How the body of [while (start < end)] leaves: through [break] (or the
    loop condition), or through one of the two [return]s, with the string
    behind [value] as it stands then. *)
Inductive scanned :=
| Break
| Return (ret : Z) (v : ngx_str_t) (p : ngx_pool_t).

(** The block of lines 49-59: the pair at [start] carries the name.  [val] is
    the offset behind its [=], [semicolon] the next [;] if there is one. *)
Definition take_value (p : ngx_pool_t) (m : list u_char) (end_ val : nat)
    (semicolon : option nat) : exec scanned :=
  let value_len := ptrdiff end_ val in
  match semicolon with
  | None => Ret (Return 1 {| len := value_len; data := Some (skipn val m) |} p)
  | Some _ =>
      match ngx_pnalloc p (size_t (Z.of_N value_len + 1)) with
      | (None, p') => Ret (Return 0 {| len := value_len; data := None |} p')
      | (Some b, p') =>
          c <- ngx_cpymem (cursor_at b) (skipn val m) value_len ;;
          let c := poke x00 c in
          Ret (Return 1 {| len := value_len; data := Some (block c) |} (written p' c))
      end
  end.

(** The loop of lines 34-67 over one header value: [m] is the memory at
    [cookie->value.data], [end_] is [cookie->value.len]. *)
Fixpoint scan_value (fuel : nat) (p : ngx_pool_t) (m : list u_char) (end_ : nat)
    (name : ngx_str_t) (start : nat) : exec scanned :=
  match fuel with
  | O => Fuel
  | S fuel' =>
    if start <? end_ then
      start <- skip_space (skipn start m) start ;;
      equals_sign <- memchr (skipn start m) start "="%byte (ptrdiff end_ start) ;;
      match equals_sign with
      | None => Ret Break
      | Some equals_sign =>
          let val := S equals_sign in
          semicolon <- memchr (skipn val m) val ";"%byte (ptrdiff end_ val) ;;
          if (ptrdiff equals_sign start =? len name)%N
             && ngx_memcmp0 (skipn start m) (mem_of name) (len name)
          then take_value p m end_ val semicolon
          else match semicolon with
               | Some semicolon => scan_value fuel' p m end_ name (S semicolon)
               | None => Ret Break
               end
      end
    else Ret Break
  end.

(** The loop over [nelts] table elements.  The result is the returned [int],
    the string behind [value] and the pool. *)
Fixpoint find_cookie_from (p : ngx_pool_t) (cs : list ngx_table_elt_t) (name : ngx_str_t)
    (v : ngx_str_t) : exec (Z * ngx_str_t * ngx_pool_t) :=
  match cs with
  | [] => Ret (0%Z, v, p)
  | cookie :: cs' =>
      let end_ := N.to_nat (len (value cookie)) in
      s <- scan_value (S end_) p (mem_of (value cookie)) end_ name 0 ;;
      match s with
      | Break => find_cookie_from p cs' name v
      | Return ret v' p' => Ret (ret, v', p')
      end
  end.

Definition find_cookie (r : ngx_http_request_t) (name : ngx_str_t) (v : ngx_str_t)
  : exec (Z * ngx_str_t * ngx_pool_t) :=
  find_cookie_from (pool r) (cookies r) name v.

(** ** ngx_escape_uri *)

Section Escaper.

(** The table that the [type] argument [NGX_ESCAPE_ARGS] selects inside
    [ngx_escape_uri]: [true] at the bytes that are to be escaped.  The table
    is part of the nginx core and is taken as a parameter of the module. *)
Variable NGX_ESCAPE_ARGS : u_char -> bool.

Definition hex : list u_char := bytes "0123456789ABCDEF".

Definition hex_digit (n : N) : u_char := nth (N.to_nat n) hex x00.

(** What an escaped byte is written as: [%], [hex[c >> 4]], [hex[c & 0xf]]. *)
Definition percent (c : u_char) : list u_char :=
  [ "%"%byte; hex_digit (N.shiftr (Byte.to_N c) 4); hex_digit (N.land (Byte.to_N c) 15) ].

(** Modelled from the spec: [ngx_escape_uri] is a function of the nginx core,
    absent from the module's source.  Called with [dst == NULL] it measures
    and writes nothing (spec 4.2): the result is the number of bytes of [src]
    that are to be escaped, the amount that [set_auth_cas_service_url] adds to
    the length of its argument. *)
Fixpoint ngx_escape_uri_null (src : list u_char) : N :=
  match src with
  | [] => 0
  | c :: src' =>
      if NGX_ESCAPE_ARGS c then N.succ (ngx_escape_uri_null src')
      else ngx_escape_uri_null src'
  end.

(** Modelled from the spec: [ngx_escape_uri] called with a destination
    (spec 4.2): a byte that the table does not mark goes through unchanged, a
    marked one is written as [%XX]; the advanced destination is returned. *)
Fixpoint ngx_escape_uri_to (dst : cursor) (src : list u_char) : cursor :=
  match src with
  | [] => dst
  | c :: src' =>
      if NGX_ESCAPE_ARGS c
      then ngx_escape_uri_to (put_all (percent c) dst) src'
      else ngx_escape_uri_to (put c dst) src'
  end.

(** [ngx_escape_uri(dst, src, size, NGX_ESCAPE_ARGS)]: the result is the count
    when [dst] is NULL and the advanced destination otherwise. *)
Definition ngx_escape_uri (dst : option cursor) (src : list u_char) (size : N)
  : exec (N + cursor) :=
  bs <- read src size ;;
  match dst with
  | None => Ret (inl (ngx_escape_uri_null bs))
  | Some dst => Ret (inr (ngx_escape_uri_to dst bs))
  end.

(** The escaped form of a byte string, as a value. *)
Definition escape (s : list u_char) : list u_char :=
  flat_map (fun c => if NGX_ESCAPE_ARGS c then percent c else [c]) s.

(** ** create_login_url *)

Definition CAS_SERVICE_PARAM : list u_char := bytes "?service=".
Definition CAS_COOKIE_NAME : list u_char := bytes "CASC".

(** [sizeof] of a string literal counts its terminator. *)
Definition sizeof (lit : list u_char) : N := N.of_nat (length lit) + 1.

(** The destination of a call of [ngx_escape_uri] that was given one. *)
Definition escaped_to (p : cursor) (src : list u_char) (size : N) : exec cursor :=
  q <- ngx_escape_uri (Some p) src size ;;
  match q with
  | inr p' => Ret p'
  | inl _ => Ret p
  end.

(** The result is the returned [int], the string behind [s] and the pool. *)
Definition create_login_url (r : ngx_http_request_t) : exec (Z * ngx_str_t * ngx_pool_t) :=
  let ctx := loc_conf r in
  let s_len :=
    size_t (Z.of_N (len (auth_cas_login_url ctx)
                    + sizeof CAS_SERVICE_PARAM
                    + len (auth_cas_service_url ctx)
                    + len (uri r) * 3
                    + 3
                    + len (args r) * 3)) in
  match ngx_pnalloc (pool r) s_len with
  | (None, pl) => Ret (0%Z, {| len := s_len; data := None |}, pl)
  | (Some b, pl) =>
      let p := cursor_at b in
      p <- ngx_cpymem p (mem_of (auth_cas_login_url ctx)) (len (auth_cas_login_url ctx)) ;;
      p <- ngx_cpymem p CAS_SERVICE_PARAM (sizeof CAS_SERVICE_PARAM - 1) ;;
      p <- ngx_cpymem p (mem_of (auth_cas_service_url ctx)) (len (auth_cas_service_url ctx)) ;;
      p <- escaped_to p (mem_of (uri r)) (len (uri r)) ;;
      p <- (if (len (args r) =? 0)%N then Ret p
            else escaped_to (put "F"%byte (put "3"%byte (put "%"%byte p)))
                            (mem_of (args r)) (len (args r))) ;;
      let p := poke x00 p in
      Ret (1%Z, {| len := N.of_nat (pos p); data := Some (block p) |}, written pl p)
  end.

(** ** send_redirect and the handler *)

Definition NGX_DECLINED : Z := -5.
Definition NGX_HTTP_MOVED_TEMPORARILY : Z := 302.
Definition NGX_HTTP_UNAUTHORIZED : Z := 401.
Definition NGX_HTTP_INTERNAL_SERVER_ERROR : Z := 500.

(** [ngx_list_push] on the list of output headers: a request to the pool; the
    new element is the last of the list. *)
Definition ngx_list_push (r : ngx_http_request_t) : bool * ngx_http_request_t :=
  (negb (pool_fails (pool r) (pool_calls (pool r))), with_pool r (pool_next (pool r))).

Definition send_redirect (r : ngx_http_request_t) (location_ : ngx_str_t)
  : Z * ngx_http_request_t :=
  match ngx_list_push r with
  | (false, r') => (NGX_HTTP_INTERNAL_SERVER_ERROR, r')
  | (true, r') =>
      let loc := {| hash := 1; key := ngx_string (bytes "Location"); value := location_ |} in
      (NGX_HTTP_MOVED_TEMPORARILY,
       {| pool := pool r'; cookies := cookies r'; uri := uri r'; args := args r';
          headers_out := {| headers := headers (headers_out r') ++ [loc];
                            location := Some loc |};
          loc_conf := loc_conf r' |})
  end.

Definition ngx_http_auth_cas_handler (r : ngx_http_request_t) : exec (Z * ngx_http_request_t) :=
  let ctx := loc_conf r in
  if (auth_cas ctx =? 0)%Z then Ret (NGX_DECLINED, r)
  else
    '(found, cookie, pl) <- find_cookie r (auth_cas_cookie ctx) ngx_null_string ;;
    let r := with_pool r pl in
    if (found =? 0)%Z then
      '(built, location_, pl) <- create_login_url r ;;
      let r := with_pool r pl in
      if (built =? 0)%Z then Ret (NGX_HTTP_INTERNAL_SERVER_ERROR, r)
      else Ret (send_redirect r location_)
    else Ret (NGX_HTTP_UNAUTHORIZED, r).

(** ** Configuration *)

Definition NGX_CONF_UNSET : Z := -1.

(** What a directive or a merge returns: NULL for [NGX_CONF_OK], or a
    message. *)
Definition NGX_CONF_OK : option (list u_char) := None.

(** The directive [auth_cas_service_url]: [value] is its argument, [ctx] the
    configuration it is stored in, [p] the pool of the configuration.  The
    block is not checked: with NULL for a destination the second call of
    [ngx_escape_uri] measures once more and stores nothing. *)
Definition set_auth_cas_service_url (p : ngx_pool_t) (value_ : ngx_str_t)
    (ctx : ngx_http_auth_cas_ctx_t)
  : exec (option (list u_char) * ngx_http_auth_cas_ctx_t * ngx_pool_t) :=
  n <- ngx_escape_uri None (mem_of value_) (len value_) ;;
  let n := match n with inl n => n | inr _ => 0%N end in
  let url_len := size_t (Z.of_N (len value_ + n)) in
  let store_url (d : option (list u_char)) :=
    {| auth_cas := auth_cas ctx; auth_cas_cookie := auth_cas_cookie ctx;
       auth_cas_login_url := auth_cas_login_url ctx;
       auth_cas_service_url := {| len := url_len; data := d |} |} in
  match ngx_pcalloc p (size_t (Z.of_N url_len + 1)) with
  | (None, p') =>
      _ <- ngx_escape_uri None (mem_of value_) (len value_) ;;
      Ret (NGX_CONF_OK, store_url None, p')
  | (Some b, p') =>
      c <- escaped_to (cursor_at b) (mem_of value_) (len value_) ;;
      Ret (NGX_CONF_OK, store_url (Some (block c)), written p' c)
  end.

(** The fresh configuration of a level, its block taken as granted. *)
Definition ngx_http_auth_cas_create_loc_conf : ngx_http_auth_cas_ctx_t :=
  {| auth_cas := NGX_CONF_UNSET;
     auth_cas_cookie := ngx_null_string;
     auth_cas_login_url := ngx_null_string;
     auth_cas_service_url := ngx_null_string |}.

(** [ngx_conf_merge_value(conf, prev, default)] *)
Definition ngx_conf_merge_value (conf prev default : Z) : Z :=
  if (conf =? NGX_CONF_UNSET)%Z
  then (if (prev =? NGX_CONF_UNSET)%Z then default else prev)
  else conf.

(** [ngx_conf_merge_str_value(conf, prev, default)] *)
Definition ngx_conf_merge_str_value (conf prev : ngx_str_t) (default : list u_char) : ngx_str_t :=
  match data conf with
  | Some _ => conf
  | None => match data prev with
            | Some _ => prev
            | None => ngx_string default
            end
  end.

(** The result is what the function returns and the merged child
    configuration. *)
Definition ngx_http_auth_cas_merge_loc_conf (prev conf : ngx_http_auth_cas_ctx_t)
  : option (list u_char) * ngx_http_auth_cas_ctx_t :=
  (NGX_CONF_OK,
   {| auth_cas := ngx_conf_merge_value (auth_cas conf) (auth_cas prev) 0;
     auth_cas_cookie :=
       ngx_conf_merge_str_value (auth_cas_cookie conf) (auth_cas_cookie prev) CAS_COOKIE_NAME;
     auth_cas_login_url :=
       match data (auth_cas_login_url conf) with
       | None => auth_cas_login_url prev
       | Some _ => auth_cas_login_url conf
       end;
     auth_cas_service_url :=
       match data (auth_cas_service_url conf) with
       | None => auth_cas_service_url prev
       | Some _ => auth_cas_service_url conf
       end |}).

End Escaper.

(** * The vocabulary of the statements *)

(** ** Cursors and strings *)

(** Everything stored through a cursor since offset 0, in order: the part
    of the block in front of the cursor, then what ran over. *)
Definition stream (c : cursor) : list u_char := firstn (pos c) (block c) ++ overrun c.

(** A cursor is either inside its block with nothing run over, or behind it
    with every byte since the end of the block run over. *)
Definition tidy (c : cursor) : Prop :=
  (pos c <= length (block c) /\ overrun c = []) \/
  (length (block c) <= pos c /\ length (overrun c) = pos c - length (block c)).

(** The invariant of [ngx_str_t]: [len] bytes can be read from [data]. *)
Definition readable (s : ngx_str_t) : Prop :=
  (len s <= N.of_nat (length (mem_of s)))%N.

(** ** The login URL *)

(** The layout of spec 4.3, as a value: the login URL, the parameter, the
    stored service URL as it is, the escaped path and, behind a literal
    [%3F], the escaped query if there is one. *)
Definition login_url_layout (tbl : u_char -> bool) (r : ngx_http_request_t)
  : list u_char :=
  ngx_str_bytes (auth_cas_login_url (loc_conf r))
  ++ CAS_SERVICE_PARAM
  ++ ngx_str_bytes (auth_cas_service_url (loc_conf r))
  ++ escape tbl (ngx_str_bytes (uri r))
  ++ match ngx_str_bytes (args r) with
     | [] => []
     | q => bytes "%3F" ++ escape tbl q
     end.

(** The strings that [create_login_url] reads are strings, and the bound it
    computes for the block is a value of [size_t]. *)
Definition url_inputs_ok (r : ngx_http_request_t) : Prop :=
  readable (auth_cas_login_url (loc_conf r)) /\
  readable (auth_cas_service_url (loc_conf r)) /\
  readable (uri r) /\ readable (args r) /\
  (len (auth_cas_login_url (loc_conf r)) + sizeof CAS_SERVICE_PARAM
   + len (auth_cas_service_url (loc_conf r)) + len (uri r) * 3 + 3 + len (args r) * 3
   < 2 ^ SIZE_WIDTH)%N.

(** ** Cookie headers made of pairs *)

(** A pair of a [Cookie] header: white space, a name, [=], a value. *)
Record cookie_pair := {
  c_space : list u_char;
  c_name  : list u_char;
  c_value : list u_char
}.

(** The bytes of a pair. *)
Definition render_pair (q : cookie_pair) : list u_char :=
  c_space q ++ c_name q ++ "="%byte :: c_value q.

(** The bytes of a header: its pairs with a [;] between two of them and,
    if [g] is given, the bytes [g] in place of a further pair: behind the [;]
    of the last pair, or for all of the header when there is no pair. *)
Fixpoint render (ps : list cookie_pair) (g : option (list u_char)) : list u_char :=
  match ps with
  | [] => match g with Some g => g | None => [] end
  | q :: ps' => render_pair q ++ match ps', g with
                                 | [], None => []
                                 | _, _ => ";"%byte :: render ps' g
                                 end
  end.

(** The name of a pair neither begins with white space nor holds a [=]; its
    value holds no [;]. *)
Definition wf_pair (q : cookie_pair) : Prop :=
  Forall (fun c => isspace c = true) (c_space q) /\
  (forall c t, c_name q = c :: t -> isspace c = false) /\
  ~ In "="%byte (c_name q) /\
  ~ In ";"%byte (c_value q).

(** The bytes in place of a further pair are no pair: they hold no [=]. *)
Definition wf_rest (g : option (list u_char)) : Prop :=
  match g with
  | Some g => ~ In "="%byte g
  | None => True
  end.

(** A header value in memory: its pairs, the bytes behind them, and what
    lies in memory behind its terminator. *)
Record header_shape := {
  h_pairs : list cookie_pair;
  h_rest  : option (list u_char);
  h_junk  : list u_char
}.

(** What the scan of a header of this shape comes to: the first pair that
    carries the name decides. *)
Fixpoint scan_pairs (p : ngx_pool_t) (target : list u_char) (ps : list cookie_pair)
    (g : option (list u_char)) (junk : list u_char) : exec scanned :=
  match ps with
  | [] => Ret Break
  | q :: ps' =>
      if bytes_eqb (c_name q) target then
        match ps', g with
        | [], None => Ret (Return 1 {| len := N.of_nat (length (c_value q));
                                       data := Some (c_value q ++ x00 :: junk) |} p)
        | _, _ =>
            let rest := c_value q ++ ";"%byte :: render ps' g in
            if pool_fails p (pool_calls p)
            then Ret (Return 0 {| len := N.of_nat (length rest); data := None |} (pool_next p))
            else Ret (Return 1 {| len := N.of_nat (length rest);
                                  data := Some (rest ++ [x00]) |} (pool_next p))
        end
      else scan_pairs p target ps' g junk
  end.

(** A table element whose value has the shape [x], its terminator behind
    it as nginx leaves it there. *)
Definition carries (h : ngx_table_elt_t) (x : header_shape) : Prop :=
  value h = {| len := N.of_nat (length (render (h_pairs x) (h_rest x)));
               data := Some (render (h_pairs x) (h_rest x) ++ x00 :: h_junk x) |} /\
  Forall wf_pair (h_pairs x) /\
  wf_rest (h_rest x) /\
  (N.of_nat (length (render (h_pairs x) (h_rest x))) < 2 ^ SIZE_WIDTH)%N.


(** What [find_cookie] comes to on a sequence of such headers: the first
    header with a pair of the name decides. *)
Fixpoint find_pairs (p : ngx_pool_t) (target : list u_char)
    (hs : list header_shape) (v : ngx_str_t)
  : exec (Z * ngx_str_t * ngx_pool_t) :=
  match hs with
  | [] => Ret (0%Z, v, p)
  | x :: hs' =>
      s <- scan_pairs p target (h_pairs x) (h_rest x) (h_junk x) ;;
      match s with
      | Break => find_pairs p target hs' v
      | Return ret v' p' => Ret (ret, v', p')
      end
  end.

(** ** The class of the escaper *)

(** ASCII letters and digits. *)
Definition isalnum (c : u_char) : bool :=
  let n := Byte.to_N c in
  ((48 <=? n) && (n <=? 57) || (65 <=? n) && (n <=? 90) || (97 <=? n) && (n <=? 122))%N.


(** Modelled from the spec: a table of the class of spec 4.2, for the
    scenarios; the table of the nginx core is absent from the module's
    source.  Alphanumerics and the marks [-], [.], [_], [~] go through. *)
Definition spec_escape_args (c : u_char) : bool :=
  negb (isalnum c
        || match c with
           | "-"%byte | "."%byte | "_"%byte | "~"%byte => true
           | _ => false
           end).

(** One of [0]-[9], [A]-[F], and the digit it stands for. *)
Definition is_upper_hex (h : u_char) : bool := existsb (Byte.eqb h) hex.

Definition hex_value (h : u_char) : N :=
  let n := Byte.to_N h in if (n <=? 57)%N then n - 48 else n - 55.

(** ** Occurrences of a pattern *)

(** [pat] begins [l]. *)
Fixpoint prefixb (pat l : list u_char) : bool :=
  match pat with
  | [] => true
  | x :: pat' => match l with
                 | [] => false
                 | y :: l' => Byte.eqb x y && prefixb pat' l'
                 end
  end.

(** The number of offsets of [l] at which [pat] begins. *)
Fixpoint occurrences (pat l : list u_char) : nat :=
  match l with
  | [] => 0
  | _ :: l' => (if prefixb pat l then 1 else 0) + occurrences pat l'
  end.

(** The number of bytes [c] in [s]. *)
Fixpoint count_byte (c : u_char) (s : list u_char) : nat :=
  match s with
  | [] => 0
  | x :: s' => (if Byte.eqb x c then 1 else 0) + count_byte c s'
  end.

(** The separator that [create_login_url] writes in front of the query. *)
Definition PERCENT_3F : list u_char := bytes "%3F".

(** ** Requests of the scenarios *)

(** A pool that grants every request. *)
Definition granting_pool : ngx_pool_t :=
  {| pool_fails := fun _ => false; pool_fill := fun _ _ => xff;
     pool_calls := 0; pool_damage := [] |}.

(** A pool that refuses request number [k] and grants every other. *)
Definition refusing_pool (k : nat) : ngx_pool_t :=
  {| pool_fails := Nat.eqb k; pool_fill := fun _ _ => xff;
     pool_calls := 0; pool_damage := [] |}.

(** A table element with [len] bytes of value in the memory [m]. *)
Definition raw_header (n : nat) (m : list u_char) : ngx_table_elt_t :=
  {| hash := 0; key := ngx_string (bytes "Cookie");
     value := {| len := N.of_nat n; data := Some m |} |}.

(** A [Cookie] header as nginx hands it over: the value and its terminator. *)
Definition cookie_header (s : list u_char) : ngx_table_elt_t :=
  raw_header (length s) (s ++ [x00]).

(** The configuration of the scenarios of spec 8. *)
Definition scenario_conf : ngx_http_auth_cas_ctx_t :=
  {| auth_cas := 1;
     auth_cas_cookie := ngx_string CAS_COOKIE_NAME;
     auth_cas_login_url := ngx_string (bytes "https://cas.example.com/login");
     auth_cas_service_url := ngx_string (bytes "https%3A%2F%2Fapp.example.com%2F") |}.

(** A request with the path and the query given, no output header yet. *)
Definition request_of (conf : ngx_http_auth_cas_ctx_t) (p : ngx_pool_t)
    (cs : list ngx_table_elt_t) (path query : list u_char) : ngx_http_request_t :=
  {| pool := p; cookies := cs; uri := ngx_string path; args := ngx_string query;
     headers_out := {| headers := []; location := None |}; loc_conf := conf |}.

(** A location that turns the gate on and sets a service URL, below a level
    that sets nothing: no login URL at either level. *)
Definition conf_without_login_url : ngx_http_auth_cas_ctx_t :=
  snd (ngx_http_auth_cas_merge_loc_conf
         ngx_http_auth_cas_create_loc_conf
         {| auth_cas := 1;
            auth_cas_cookie := ngx_null_string;
            auth_cas_login_url := ngx_null_string;
            auth_cas_service_url := ngx_string (bytes "https%3A%2F%2Fapp.example.com%2F") |}).

(** What the host sees of a run of the handler: the status it returns and the
    bytes of the [Location] header, if one was set. *)
Definition response (e : exec (Z * ngx_http_request_t))
  : exec (Z * option (list u_char)) :=
  '(status, r) <- e ;;
  Ret (status, option_map (fun loc => ngx_str_bytes (value loc))
                          (location (headers_out r))).

(** ** Percent-decoding *)

(** The byte that two hexadecimal digits spell. *)
Definition hex_byte (h l : u_char) : u_char :=
  match Byte.of_N (16 * hex_value h + hex_value l) with
  | Some b => b
  | None => x00
  end.

(** What a reader of the [service] parameter does with it: a [%] and the two
    digits behind it become the byte they spell, any other byte stays. *)
Fixpoint unescape (s : list u_char) : list u_char :=
  match s with
  | [] => []
  | c :: t =>
      if Byte.eqb c "%" then
        match t with
        | h :: l :: t' => hex_byte h l :: unescape t'
        | _ => c :: unescape t
        end
      else c :: unescape t
  end.

(** ** Levels of configuration *)

(** A directive was met at a level: the flag is no longer unset, the string
    has data. *)
Definition flag_is_set (v : Z) : bool := negb (v =? NGX_CONF_UNSET)%Z.

Definition has_data (s : ngx_str_t) : bool :=
  match data s with Some _ => true | None => false end.

(** The first of the levels, the innermost in front, at which [set] holds,
    and [default] if there is none. *)
Definition nearest {A : Type} (set : A -> bool) (levels : list A) (default : A) : A :=
  match find set levels with
  | Some v => v
  | None => default
  end.

(** The flag [auth_cas] is off at a level below [prev]: [off] there, or
    missing there and [off] or missing at [prev]. *)
Definition switched_off (prev conf : ngx_http_auth_cas_ctx_t) : Prop :=
  auth_cas conf = 0%Z \/
  (auth_cas conf = NGX_CONF_UNSET /\
   (auth_cas prev = 0%Z \/ auth_cas prev = NGX_CONF_UNSET)).

(** * Properties *)

(** ** Blocks and cursors *)

Lemma store_length (l : list u_char) i b : length (store l i b) = length l.
Proof.
  revert i; induction l as [|c l IH]; intros [|i]; simpl; auto.
Qed.

Lemma firstn_store_below (l : list u_char) i b k :
  k <= i -> firstn k (store l i b) = firstn k l.
Proof.
  revert i k; induction l as [|c l IH]; intros [|i] [|k] Hk; simpl; auto; try lia.
  f_equal. apply IH. lia.
Qed.

Lemma firstn_store_at (l : list u_char) i b :
  i < length l -> firstn (S i) (store l i b) = firstn i l ++ [b].
Proof.
  revert i; induction l as [|c l IH]; intros [|i] Hi; simpl in *; try lia.
  - reflexivity.
  - f_equal. apply IH. lia.
Qed.

Lemma tidy_cursor_at b : tidy (cursor_at b).
Proof. left. simpl. split; [lia | reflexivity]. Qed.

Lemma put_spec b c :
  tidy c ->
  tidy (put b c) /\ stream (put b c) = stream c ++ [b] /\
  pos (put b c) = S (pos c) /\ length (block (put b c)) = length (block c).
Proof.
  intros Ht. unfold put, stream, tidy.
  destruct (Nat.ltb_spec (pos c) (length (block c))) as [Hlt|Hge];
    cbn [pos block overrun].
  - assert (Ho : overrun c = []) by (destruct Ht as [[_ H]|[H _]]; [exact H | lia]).
    rewrite Ho, store_length, firstn_store_at, !app_nil_r by exact Hlt.
    repeat split; auto.
  - assert (Hl : length (overrun c) = pos c - length (block c)).
    { destruct Ht as [[H1 H2]|[_ H]]; [rewrite H2; simpl; lia | exact H]. }
    rewrite !firstn_all2 by lia. rewrite app_assoc, length_app.
    change (length [b]) with 1.
    repeat split; auto. right. lia.
Qed.

Lemma put_all_spec bs : forall c,
  tidy c ->
  tidy (put_all bs c) /\ stream (put_all bs c) = stream c ++ bs /\
  pos (put_all bs c) = pos c + length bs /\
  length (block (put_all bs c)) = length (block c).
Proof.
  induction bs as [|b bs IH]; intros c Ht; simpl.
  - rewrite app_nil_r. repeat split; auto.
  - destruct (put_spec b Ht) as (Ht' & Hs & Hp & Hl).
    destruct (IH _ Ht') as (Ht2 & Hs2 & Hp2 & Hl2).
    rewrite Hs2, Hs, Hp2, Hp, Hl2, Hl, <- app_assoc. simpl.
    repeat split; auto.
Qed.

Lemma put_all_nil c : put_all [] c = c.
Proof. reflexivity. Qed.

Lemma put_percent_3F c :
  put "F"%byte (put "3"%byte (put "%"%byte c)) = put_all (bytes "%3F") c.
Proof. reflexivity. Qed.

Lemma put_all_app a b c : put_all (a ++ b) c = put_all b (put_all a c).
Proof. revert c; induction a as [|x a IH]; intro c; simpl; auto. Qed.

(** A cursor strictly inside its block: the final [*p = 0] stays in the block
    and leaves what was written in front of it as it is. *)
Lemma poke_inside b c :
  tidy c -> pos c < length (block c) ->
  firstn (pos c) (block (poke b c)) = stream c /\ overrun (poke b c) = [].
Proof.
  intros Ht Hlt.
  assert (Ho : overrun c = []) by (destruct Ht as [[_ H]|[H _]]; [exact H | lia]).
  unfold poke, put, stream. simpl.
  destruct (Nat.ltb_spec (pos c) (length (block c))); [|lia]. simpl.
  rewrite firstn_store_below, Ho, app_nil_r by lia. split; reflexivity.
Qed.

Lemma written_clean p c : overrun c = [] -> written p c = p.
Proof.
  intro H. unfold written. rewrite H, app_nil_r. destruct p; reflexivity.
Qed.

(** ** Reading strings *)

Lemma read_readable s : readable s -> read (mem_of s) (len s) = Ret (ngx_str_bytes s).
Proof.
  unfold readable, read, ngx_str_bytes. intro H.
  destruct (N.leb_spec (len s) (N.of_nat (length (mem_of s)))); [reflexivity | lia].
Qed.

Lemma length_ngx_str_bytes s : readable s -> length (ngx_str_bytes s) = N.to_nat (len s).
Proof.
  unfold readable, ngx_str_bytes. intro H. rewrite length_firstn. lia.
Qed.

Lemma readable_ngx_string s : readable (ngx_string s).
Proof. unfold readable, ngx_string, mem_of. simpl. rewrite length_app. simpl. lia. Qed.

Lemma ngx_str_bytes_ngx_string s : ngx_str_bytes (ngx_string s) = s.
Proof.
  unfold ngx_str_bytes, ngx_string, mem_of. simpl.
  rewrite Nat2N.id, firstn_app, Nat.sub_diag, firstn_all. simpl. apply app_nil_r.
Qed.

Lemma read_literal (lit : list u_char) : read lit (sizeof lit - 1) = Ret lit.
Proof.
  unfold read, sizeof.
  replace (N.of_nat (length lit) + 1 - 1)%N with (N.of_nat (length lit)) by lia.
  rewrite N.leb_refl, Nat2N.id, firstn_all. reflexivity.
Qed.

(** ** [size_t] without wrap-around *)

Lemma size_t_fits (n : N) : (n < 2 ^ SIZE_WIDTH)%N -> size_t (Z.of_N n) = n.
Proof.
  unfold size_t, SIZE_WIDTH. intro H.
  change (2 ^ 64)%N with 18446744073709551616%N in H.
  change (2 ^ Z.of_N 64)%Z with 18446744073709551616%Z.
  rewrite Z.mod_small by lia. lia.
Qed.

Lemma ptrdiff_fits (p q : nat) :
  q <= p -> (N.of_nat p < 2 ^ SIZE_WIDTH)%N -> ptrdiff p q = N.of_nat (p - q).
Proof.
  intros Hle Hp. unfold ptrdiff.
  replace (Z.of_nat p - Z.of_nat q)%Z with (Z.of_N (N.of_nat (p - q))) by lia.
  apply size_t_fits. lia.
Qed.

(** ** The escaper *)

Section EscaperFacts.

Variable tbl : u_char -> bool.

Lemma ngx_escape_uri_to_escape src : forall dst,
  ngx_escape_uri_to tbl dst src = put_all (escape tbl src) dst.
Proof.
  induction src as [|c src IH]; intro dst; simpl; [reflexivity|].
  destruct (tbl c); rewrite IH; [rewrite put_all_app|]; reflexivity.
Qed.

Lemma escaped_to_readable p s :
  readable s ->
  escaped_to tbl p (mem_of s) (len s) = Ret (put_all (escape tbl (ngx_str_bytes s)) p).
Proof.
  intro H. unfold escaped_to, ngx_escape_uri.
  rewrite (read_readable H). simpl. rewrite ngx_escape_uri_to_escape. reflexivity.
Qed.

Lemma escape_app a b : escape tbl (a ++ b) = escape tbl a ++ escape tbl b.
Proof. unfold escape. apply flat_map_app. Qed.

(** Escaping adds two bytes for every byte that the table marks. *)
Lemma length_escape s :
  N.of_nat (length (escape tbl s)) = (N.of_nat (length s) + 2 * ngx_escape_uri_null tbl s)%N.
Proof.
  induction s as [|c s IH]; [reflexivity|].
  change (escape tbl (c :: s)) with ((if tbl c then percent c else [c]) ++ escape tbl s).
  rewrite length_app. cbn [ngx_escape_uri_null length].
  destruct (tbl c); cbn [length percent]; lia.
Qed.

Lemma ngx_escape_uri_null_le s : (ngx_escape_uri_null tbl s <= N.of_nat (length s))%N.
Proof.
  induction s as [|c s IH]; cbn [ngx_escape_uri_null length]; [lia|].
  destruct (tbl c); lia.
Qed.

Lemma length_escape_le s : length (escape tbl s) <= 3 * length s.
Proof.
  pose proof (length_escape s). pose proof (ngx_escape_uri_null_le s). lia.
Qed.

(** ** The login URL *)

Lemma length_login_url_layout r :
  url_inputs_ok r ->
  (N.of_nat (length (login_url_layout tbl r))
   < len (auth_cas_login_url (loc_conf r)) + sizeof CAS_SERVICE_PARAM
     + len (auth_cas_service_url (loc_conf r)) + len (uri r) * 3 + 3 + len (args r) * 3)%N.
Proof.
  intros (Hl & Hs & Hu & Ha & _). unfold login_url_layout.
  rewrite !length_app.
  pose proof (length_ngx_str_bytes Hl). pose proof (length_ngx_str_bytes Hs).
  pose proof (length_ngx_str_bytes Hu). pose proof (length_ngx_str_bytes Ha).
  pose proof (length_escape_le (ngx_str_bytes (uri r))).
  pose proof (length_escape_le (ngx_str_bytes (args r))).
  assert (length (match ngx_str_bytes (args r) with
                  | [] => []
                  | q => bytes "%3F" ++ escape tbl q
                  end) <= 3 + length (escape tbl (ngx_str_bytes (args r)))).
  { destruct (ngx_str_bytes (args r)); [simpl; lia|]. rewrite length_app. simpl. lia. }
  unfold sizeof. change (length CAS_SERVICE_PARAM) with 9. lia.
Qed.

(** With its block granted, [create_login_url] returns 1, leaves in [s] the
    layout with its exact length, and stores nothing outside the block. *)
Lemma create_login_url_ok r :
  url_inputs_ok r ->
  pool_fails (pool r) (pool_calls (pool r)) = false ->
  exists s, create_login_url tbl r = Ret (1%Z, s, pool_next (pool r)) /\
            ngx_str_bytes s = login_url_layout tbl r /\
            len s = N.of_nat (length (login_url_layout tbl r)) /\
            readable s.
Proof.
  intros Hok Hgrant. pose proof (length_login_url_layout Hok) as Hlen.
  destruct Hok as (Hl & Hs & Hu & Ha & Hfit).
  unfold create_login_url, ngx_pnalloc. rewrite Hgrant, (size_t_fits Hfit).
  unfold ngx_cpymem.
  rewrite (read_readable Hl), read_literal, (read_readable Hs). cbn [bind].
  rewrite (escaped_to_readable _ Hu). cbn [bind].
  set (b := map _ (seq 0 _)).
  assert (Hb : length b = N.to_nat
            (len (auth_cas_login_url (loc_conf r)) + sizeof CAS_SERVICE_PARAM
             + len (auth_cas_service_url (loc_conf r)) + len (uri r) * 3 + 3
             + len (args r) * 3)).
  { unfold b. rewrite length_map, length_seq. reflexivity. }
  assert (Hq : (if (len (args r) =? 0)%N
                then Ret (put_all (escape tbl (ngx_str_bytes (uri r)))
                       (put_all (ngx_str_bytes (auth_cas_service_url (loc_conf r)))
                          (put_all CAS_SERVICE_PARAM
                             (put_all (ngx_str_bytes (auth_cas_login_url (loc_conf r)))
                                (cursor_at b)))))
                else escaped_to tbl
                       (put "F"%byte (put "3"%byte (put "%"%byte
                          (put_all (escape tbl (ngx_str_bytes (uri r)))
                             (put_all (ngx_str_bytes (auth_cas_service_url (loc_conf r)))
                                (put_all CAS_SERVICE_PARAM
                                   (put_all (ngx_str_bytes (auth_cas_login_url (loc_conf r)))
                                      (cursor_at b))))))))
                       (mem_of (args r)) (len (args r)))
               = Ret (put_all (login_url_layout tbl r) (cursor_at b))).
  { unfold login_url_layout. rewrite !put_all_app.
    pose proof (length_ngx_str_bytes Ha) as Hla.
    destruct (N.eqb_spec (len (args r)) 0) as [Hz|Hnz].
    - destruct (ngx_str_bytes (args r)); [|simpl in Hla; lia].
      rewrite put_all_nil. reflexivity.
    - rewrite (escaped_to_readable _ Ha), put_percent_3F.
      destruct (ngx_str_bytes (args r)) eqn:Hq; [simpl in Hla; lia|].
      rewrite put_all_app. reflexivity. }
  rewrite Hq. cbn [bind].
  destruct (put_all_spec (login_url_layout tbl r) (tidy_cursor_at b)) as (Ht & Hst & Hp & Hbl).
  cbn [pos block cursor_at stream firstn overrun app] in Hp, Hbl, Hst.
  assert (Hin : pos (put_all (login_url_layout tbl r) (cursor_at b))
                < length (block (put_all (login_url_layout tbl r) (cursor_at b)))).
  { rewrite Hp, Hbl, Hb. lia. }
  destruct (poke_inside x00 Ht Hin) as (Hfirst & Hover).
  eexists. split; [|split; [|split]].
  - rewrite (written_clean _ _ Hover). reflexivity.
  - unfold ngx_str_bytes, mem_of. cbn [len data]. rewrite Nat2N.id.
    change (pos (poke x00 (put_all (login_url_layout tbl r) (cursor_at b))))
      with (pos (put_all (login_url_layout tbl r) (cursor_at b))).
    rewrite Hfirst, Hst. reflexivity.
  - cbn [len]. change (pos (poke x00 ?c)) with (pos c). rewrite Hp. reflexivity.
  - unfold readable, mem_of. cbn [len data].
    change (pos (poke x00 ?c)) with (pos c).
    assert (length (block (poke x00 (put_all (login_url_layout tbl r) (cursor_at b))))
            = length b).
    { unfold poke. cbn [block]. destruct (put_spec x00 Ht) as (_ & _ & _ & E).
      rewrite E. exact Hbl. }
    lia.
Qed.


End EscaperFacts.

(** ** Cookie headers: lemmas *)

Lemma bytes_eqb_eq a : forall b, bytes_eqb a b = true <-> a = b.
Proof.
  induction a as [|x a IH]; intros [|y b]; simpl; split; intro H;
    try reflexivity; try discriminate.
  - apply andb_true_iff in H. destruct H as [H1 H2].
    apply Byte.byte_dec_bl in H1. apply IH in H2. congruence.
  - injection H as -> ->. rewrite (Byte.byte_dec_lb eq_refl). simpl. apply IH. reflexivity.
Qed.

Lemma byte_eqb_neq (x y : u_char) : x <> y -> Byte.eqb x y = false.
Proof.
  intro H. destruct (Byte.eqb x y) eqn:E; [|reflexivity].
  apply Byte.byte_dec_bl in E. contradiction.
Qed.

Lemma skipn_exact (a b : list u_char) k : k = length a -> skipn k (a ++ b) = b.
Proof.
  intros ->. rewrite skipn_app, skipn_all, Nat.sub_diag. reflexivity.
Qed.

Lemma firstn_exact (a b : list u_char) k : k = length a -> firstn k (a ++ b) = a.
Proof.
  intros ->. rewrite firstn_app, firstn_all, Nat.sub_diag. simpl. apply app_nil_r.
Qed.

Lemma store_spec (l : list u_char) i b :
  i < length l -> store l i b = firstn i l ++ b :: skipn (S i) l.
Proof.
  revert i; induction l as [|c l IH]; intros [|i] Hi; simpl in *; try lia.
  - reflexivity.
  - f_equal. apply IH. lia.
Qed.

(** The skip stops in front of the first byte that is no white space. *)
Lemma skip_space_stops ws : forall c rest s,
  Forall (fun c => isspace c = true) ws -> isspace c = false ->
  skip_space (ws ++ c :: rest) s = Ret (s + length ws).
Proof.
  induction ws as [|w ws IH]; intros c rest s Hws Hc; simpl.
  - rewrite Hc. f_equal. lia.
  - inversion Hws as [|? ? Hw Hws']; subst. rewrite Hw, IH by assumption. f_equal. lia.
Qed.

(** Nothing but white space up to the end of the readable memory: the skip
    leaves it. *)
Lemma skip_space_leaves ws : forall s,
  Forall (fun c => isspace c = true) ws -> skip_space ws s = Segv.
Proof.
  induction ws as [|w ws IH]; intros s Hws; simpl; [reflexivity|].
  inversion Hws as [|? ? Hw Hws']; subst. rewrite Hw. apply IH. assumption.
Qed.

Lemma memchr_hit a : forall c rest s n,
  ~ In c a -> (N.of_nat (length a) < n)%N ->
  memchr (a ++ c :: rest) s c n = Ret (Some (s + length a)).
Proof.
  induction a as [|x a IH]; intros c rest s n Hni Hn; simpl in *.
  - destruct (N.eqb_spec n 0); [lia|].
    rewrite (Byte.byte_dec_lb eq_refl). f_equal. f_equal. lia.
  - destruct (N.eqb_spec n 0); [lia|].
    rewrite byte_eqb_neq by (intro; apply Hni; left; assumption).
    rewrite IH by (try (intro; apply Hni; right; assumption); lia).
    f_equal. f_equal. lia.
Qed.

Lemma memchr_miss a : forall c rest s n,
  ~ In c a -> n = N.of_nat (length a) ->
  memchr (a ++ rest) s c n = Ret None.
Proof.
  induction a as [|x a IH]; intros c rest s n Hni Hn; simpl in *.
  - subst n. destruct rest; reflexivity.
  - destruct (N.eqb_spec n 0); [lia|].
    rewrite byte_eqb_neq by (intro; apply Hni; left; assumption).
    apply IH; [intro; apply Hni; right; assumption | lia].
Qed.

Lemma scan_value_S fuel p m end_ name start :
  scan_value (S fuel) p m end_ name start =
  if start <? end_ then
    start <- skip_space (skipn start m) start ;;
    equals_sign <- memchr (skipn start m) start "="%byte (ptrdiff end_ start) ;;
    match equals_sign with
    | None => Ret Break
    | Some equals_sign =>
        let val := S equals_sign in
        semicolon <- memchr (skipn val m) val ";"%byte (ptrdiff end_ val) ;;
        if (ptrdiff equals_sign start =? len name)%N
           && ngx_memcmp0 (skipn start m) (mem_of name) (len name)
        then take_value p m end_ val semicolon
        else match semicolon with
             | Some semicolon => scan_value fuel p m end_ name (S semicolon)
             | None => Ret Break
             end
    end
  else Ret Break.
Proof. reflexivity. Qed.

Lemma skip_space_pair q x s :
  wf_pair q ->
  skip_space (c_space q ++ c_name q ++ "="%byte :: x) s = Ret (s + length (c_space q)).
Proof.
  intros (Hsp & Hhd & _ & _).
  destruct (c_name q) as [|c t] eqn:E; simpl.
  - apply skip_space_stops; [assumption | reflexivity].
  - apply skip_space_stops; [assumption | apply (Hhd c t eq_refl)].
Qed.

(** The test of lines 46-47 on a candidate [nm]: it holds exactly when the
    candidate is the name, byte for byte. *)
Lemma name_test nm x name start :
  readable name -> (N.of_nat (start + length nm) < 2 ^ SIZE_WIDTH)%N ->
  (ptrdiff (start + length nm) start =? len name)%N
  && ngx_memcmp0 (nm ++ x) (mem_of name) (len name)
  = bytes_eqb nm (ngx_str_bytes name).
Proof.
  intros Hr Hfit. rewrite ptrdiff_fits by (assumption || lia).
  replace (start + length nm - start) with (length nm) by lia.
  pose proof (length_ngx_str_bytes Hr) as Hlen.
  destruct (N.eqb_spec (N.of_nat (length nm)) (len name)) as [E|E]; simpl.
  - unfold ngx_memcmp0. rewrite firstn_exact by lia. reflexivity.
  - destruct (bytes_eqb nm (ngx_str_bytes name)) eqn:B; [|reflexivity].
    apply bytes_eqb_eq in B. subst nm. lia.
Qed.

(** One turn of the loop on a well-formed pair at [start = length pre]. *)
Lemma scan_step fuel p pre q after name end_ :
  wf_pair q -> readable name ->
  length (pre ++ render_pair q) <= end_ -> (N.of_nat end_ < 2 ^ SIZE_WIDTH)%N ->
  scan_value (S fuel) p (pre ++ render_pair q ++ after) end_ name (length pre) =
  let val := S (length pre + length (c_space q) + length (c_name q)) in
  semicolon <- memchr (c_value q ++ after) val ";"%byte (ptrdiff end_ val) ;;
  if bytes_eqb (c_name q) (ngx_str_bytes name)
  then take_value p (pre ++ render_pair q ++ after) end_ val semicolon
  else match semicolon with
       | Some semicolon =>
           scan_value fuel p (pre ++ render_pair q ++ after) end_ name (S semicolon)
       | None => Ret Break
       end.
Proof.
  intros Hwf Hr Hend Hfit. rewrite scan_value_S.
  set (m := pre ++ render_pair q ++ after).
  assert (Hm : m = pre ++ c_space q ++ c_name q ++ "="%byte :: c_value q ++ after).
  { unfold m, render_pair. rewrite <- !app_assoc. reflexivity. }
  unfold render_pair in Hend. rewrite !length_app in Hend. cbn [length] in Hend.
  destruct (Nat.ltb_spec (length pre) end_); [|lia].
  assert (H1 : skipn (length pre) m
               = c_space q ++ c_name q ++ "="%byte :: c_value q ++ after).
  { rewrite Hm. apply skipn_exact. reflexivity. }
  rewrite H1, (skip_space_pair _ _ Hwf). cbn [bind].
  assert (H2 : skipn (length pre + length (c_space q)) m
               = c_name q ++ "="%byte :: c_value q ++ after).
  { rewrite Hm, app_assoc. apply skipn_exact. rewrite length_app. reflexivity. }
  rewrite H2.
  destruct Hwf as (_ & _ & Hne & _).
  rewrite memchr_hit by (try assumption; rewrite ptrdiff_fits by (assumption || lia); lia).
  cbn [bind].
  assert (H3 : skipn (S (length pre + length (c_space q) + length (c_name q))) m
               = c_value q ++ after).
  { rewrite Hm.
    replace (pre ++ c_space q ++ c_name q ++ "="%byte :: c_value q ++ after)
      with ((pre ++ c_space q ++ c_name q ++ ["="%byte]) ++ c_value q ++ after)
      by (rewrite <- !app_assoc; reflexivity).
    apply skipn_exact. rewrite !length_app. simpl. lia. }
  cbv zeta. rewrite H3, name_test by (assumption || lia). reflexivity.
Qed.

(** The copy of a value into its block of one byte more, and the
    terminator behind it. *)
Lemma copy_terminated rest b :
  length b = S (length rest) ->
  block (poke x00 (put_all rest (cursor_at b))) = rest ++ [x00] /\
  overrun (poke x00 (put_all rest (cursor_at b))) = [].
Proof.
  intro Hb.
  destruct (put_all_spec rest (tidy_cursor_at b)) as (Ht & Hst & Hp & Hbl).
  cbn [pos block cursor_at stream firstn overrun app] in Hp, Hbl, Hst.
  set (c := put_all rest (cursor_at b)) in *.
  assert (Hin : pos c < length (block c)) by lia.
  assert (Ho : overrun c = []) by (destruct Ht as [[_ H]|[H _]]; [exact H | lia]).
  unfold poke, put. destruct (Nat.ltb_spec (pos c) (length (block c))); [|lia].
  cbn [block overrun]. split; [|exact Ho].
  rewrite store_spec by lia. rewrite skipn_all2 by lia.
  unfold stream in Hst. rewrite Ho, app_nil_r in Hst. rewrite Hst. reflexivity.
Qed.

(** The last pair of a header: nothing but the value up to [end_]. *)
Lemma scan_step_last fuel p pre q (tail : list u_char) name :
  wf_pair q -> readable name ->
  (N.of_nat (length pre + length (render_pair q)) < 2 ^ SIZE_WIDTH)%N ->
  scan_value (S fuel) p (pre ++ render_pair q ++ tail)
             (length pre + length (render_pair q)) name (length pre) =
  if bytes_eqb (c_name q) (ngx_str_bytes name)
  then Ret (Return 1 {| len := N.of_nat (length (c_value q));
                        data := Some (c_value q ++ tail) |} p)
  else Ret Break.
Proof.
  intros Hwf Hr Hfit.
  assert (Hv : length (render_pair q)
               = length (c_space q) + length (c_name q) + 1 + length (c_value q)).
  { unfold render_pair. rewrite !length_app. simpl. lia. }
  rewrite scan_step by (try assumption; rewrite ?length_app; lia).
  cbv zeta. destruct Hwf as (_ & _ & _ & Hns).
  rewrite ptrdiff_fits by lia.
  rewrite memchr_miss by (try assumption; lia). cbn [bind].
  destruct (bytes_eqb (c_name q) (ngx_str_bytes name)); [|reflexivity].
  unfold take_value. rewrite ptrdiff_fits by lia.
  do 3 f_equal; [f_equal; lia|].
  f_equal. unfold render_pair.
  replace (pre ++ (c_space q ++ c_name q ++ "="%byte :: c_value q) ++ tail)
    with ((pre ++ c_space q ++ c_name q ++ ["="%byte]) ++ c_value q ++ tail)
    by (rewrite <- !app_assoc; reflexivity).
  apply skipn_exact. rewrite !length_app. simpl. lia.
Qed.

(** A pair with a [;] behind its value: [more] up to [end_]. *)
Lemma scan_step_more fuel p pre q (more tail : list u_char) name :
  wf_pair q -> readable name ->
  (N.of_nat (length pre + (length (render_pair q) + S (length more))) < 2 ^ SIZE_WIDTH)%N ->
  scan_value (S fuel) p (pre ++ render_pair q ++ ";"%byte :: more ++ tail)
             (length pre + (length (render_pair q) + S (length more))) name (length pre) =
  if bytes_eqb (c_name q) (ngx_str_bytes name)
  then
    let rest := c_value q ++ ";"%byte :: more in
    if pool_fails p (pool_calls p)
    then Ret (Return 0 {| len := N.of_nat (length rest); data := None |} (pool_next p))
    else Ret (Return 1 {| len := N.of_nat (length rest);
                          data := Some (rest ++ [x00]) |} (pool_next p))
  else scan_value fuel p ((pre ++ render_pair q ++ [";"%byte]) ++ more ++ tail)
                  (length (pre ++ render_pair q ++ [";"%byte]) + length more) name
                  (length (pre ++ render_pair q ++ [";"%byte])).
Proof.
  intros Hwf Hr Hfit.
  assert (Hv : length (render_pair q)
               = length (c_space q) + length (c_name q) + 1 + length (c_value q)).
  { unfold render_pair. rewrite !length_app. simpl. lia. }
  rewrite scan_step by (try assumption; rewrite ?length_app; lia).
  cbv zeta. destruct Hwf as (_ & _ & _ & Hns).
  rewrite memchr_hit by (try assumption; rewrite ptrdiff_fits by lia; lia).
  cbn [bind].
  destruct (bytes_eqb (c_name q) (ngx_str_bytes name)).
  - unfold take_value.
    assert (Hlen : ptrdiff (length pre + (length (render_pair q) + S (length more)))
                     (S (length pre + length (c_space q) + length (c_name q)))
                   = N.of_nat (length (c_value q ++ ";"%byte :: more))).
    { rewrite ptrdiff_fits by lia. rewrite length_app. simpl. lia. }
    rewrite Hlen.
    replace (Z.of_N (N.of_nat (length (c_value q ++ ";"%byte :: more))) + 1)%Z
      with (Z.of_N (N.of_nat (S (length (c_value q ++ ";"%byte :: more))))) by lia.
    rewrite size_t_fits by (rewrite length_app; cbn [length]; lia).
    unfold ngx_pnalloc. destruct (pool_fails p (pool_calls p)); [reflexivity|].
    assert (Hsk : skipn (S (length pre + length (c_space q) + length (c_name q)))
                    (pre ++ render_pair q ++ ";"%byte :: more ++ tail)
                  = (c_value q ++ ";"%byte :: more) ++ tail).
    { unfold render_pair.
      replace (pre ++ (c_space q ++ c_name q ++ "="%byte :: c_value q)
                   ++ ";"%byte :: more ++ tail)
        with ((pre ++ c_space q ++ c_name q ++ ["="%byte])
              ++ (c_value q ++ ";"%byte :: more) ++ tail)
        by (rewrite <- !app_assoc; reflexivity).
      apply skipn_exact. rewrite !length_app. simpl. lia. }
    rewrite Hsk. unfold ngx_cpymem, read.
    destruct (N.leb_spec (N.of_nat (length (c_value q ++ ";"%byte :: more)))
                (N.of_nat (length ((c_value q ++ ";"%byte :: more) ++ tail))));
      [|rewrite length_app in *; lia].
    rewrite Nat2N.id, firstn_exact by reflexivity. cbn [bind].
    destruct (@copy_terminated (c_value q ++ ";"%byte :: more)
                (map (pool_fill p (pool_calls p))
                   (seq 0 (N.to_nat (N.of_nat
                      (S (length (c_value q ++ ";"%byte :: more))))))))
      as (Hblock & Hover).
    { rewrite length_map, length_seq, Nat2N.id. reflexivity. }
    rewrite Hblock, (written_clean _ _ Hover). reflexivity.
  - replace (S (S (length pre + length (c_space q) + length (c_name q))
                + length (c_value q)))
      with (length (pre ++ render_pair q ++ [";"%byte]))
      by (rewrite !length_app; simpl; lia).
    replace (pre ++ render_pair q ++ ";"%byte :: more ++ tail)
      with ((pre ++ render_pair q ++ [";"%byte]) ++ more ++ tail)
      by (rewrite <- !app_assoc; reflexivity).
    replace (length pre + (length (render_pair q) + S (length more)))
      with (length (pre ++ render_pair q ++ [";"%byte]) + length more)
      by (rewrite !length_app; simpl; lia).
    reflexivity.
Qed.

(** With a terminator behind the header, the skip stops at the terminator at
    the latest. *)
Lemma skip_space_terminated (g : list u_char) : forall (junk : list u_char) s,
  exists a b, g = a ++ b /\ skip_space (g ++ x00 :: junk) s = Ret (s + length a).
Proof.
  induction g as [|c g IH]; intros junk s.
  - exists [], []. split; [reflexivity|]. simpl. f_equal. lia.
  - cbn [app skip_space]. destruct (isspace c) eqn:E.
    + destruct (IH junk (S s)) as (a & b & Hg & Hs).
      exists (c :: a), b. split; [rewrite Hg; reflexivity|].
      rewrite Hs. f_equal. simpl. lia.
    + exists [], (c :: g). split; [reflexivity|]. f_equal. simpl. lia.
Qed.

(** Bytes without [=] up to the end of a terminated header hold no pair: the
    loop is left. *)
Lemma scan_value_garbage fuel p (pre g junk : list u_char) name :
  ~ In "="%byte g -> (N.of_nat (length pre + length g) < 2 ^ SIZE_WIDTH)%N ->
  scan_value (S fuel) p (pre ++ g ++ x00 :: junk) (length pre + length g) name (length pre)
  = Ret Break.
Proof.
  intros Hne Hfit. rewrite scan_value_S.
  destruct (Nat.ltb_spec (length pre) (length pre + length g)); [|reflexivity].
  rewrite (skipn_exact pre (g ++ x00 :: junk) eq_refl).
  destruct (skip_space_terminated g junk (length pre)) as (a & b & Hg & Hs).
  rewrite Hs. cbn [bind].
  assert (Hl : length g = length a + length b)
    by (rewrite Hg, length_app; reflexivity).
  assert (Hsk : skipn (length pre + length a) (pre ++ g ++ x00 :: junk)
                = b ++ x00 :: junk).
  { rewrite Hg, <- app_assoc, app_assoc. apply skipn_exact.
    symmetry. apply length_app. }
  rewrite Hsk, memchr_miss; [reflexivity | |].
  - intro Hin. apply Hne. rewrite Hg. apply in_or_app. right. exact Hin.
  - rewrite ptrdiff_fits by lia. f_equal. lia.
Qed.

Lemma render_more q ps g :
  (ps <> [] \/ g <> None) ->
  render (q :: ps) g = render_pair q ++ ";"%byte :: render ps g.
Proof.
  intro H. cbn [render]. destruct ps; [|reflexivity].
  destruct g; [reflexivity|]. destruct H; congruence.
Qed.

Lemma scan_pairs_more p target q ps g junk :
  (ps <> [] \/ g <> None) ->
  scan_pairs p target (q :: ps) g junk =
  if bytes_eqb (c_name q) target then
    let rest := c_value q ++ ";"%byte :: render ps g in
    if pool_fails p (pool_calls p)
    then Ret (Return 0 {| len := N.of_nat (length rest); data := None |} (pool_next p))
    else Ret (Return 1 {| len := N.of_nat (length rest);
                          data := Some (rest ++ [x00]) |} (pool_next p))
  else scan_pairs p target ps g junk.
Proof.
  intro H. cbn [scan_pairs]. destruct ps; [|reflexivity].
  destruct g; [reflexivity|]. destruct H; congruence.
Qed.

(** The scan of a terminated header from its shape. *)
Lemma scan_value_render ps : forall pre fuel p g junk name,
  Forall wf_pair ps -> wf_rest g -> readable name -> length ps < fuel ->
  (N.of_nat (length pre + length (render ps g)) < 2 ^ SIZE_WIDTH)%N ->
  scan_value fuel p (pre ++ render ps g ++ x00 :: junk)
             (length pre + length (render ps g)) name (length pre)
  = scan_pairs p (ngx_str_bytes name) ps g junk.
Proof.
  induction ps as [|q ps IH]; intros pre fuel p g junk name Hwf Hg Hr Hfuel Hfit;
    (destruct fuel as [|fuel]; [simpl in Hfuel; lia|]).
  - destruct g as [g|]; cbn [render scan_pairs] in *.
    + apply scan_value_garbage; assumption.
    + rewrite scan_value_S. cbn [length]. rewrite Nat.add_0_r, Nat.ltb_irrefl. reflexivity.
  - inversion Hwf as [|? ? Hq Hps]; subst.
    assert (Hcase : (ps = [] /\ g = None) \/ (ps <> [] \/ g <> None)).
    { destruct ps; [|right; left; discriminate].
      destruct g; [right; right; discriminate | left; split; reflexivity]. }
    destruct Hcase as [[-> ->]|Hmore].
    + cbn [render scan_pairs] in *. rewrite app_nil_r in *.
      apply scan_step_last; assumption.
    + rewrite (render_more q Hmore) in *. rewrite (scan_pairs_more _ _ _ _ Hmore).
      rewrite length_app in *. cbn [length] in *.
      replace (pre ++ (render_pair q ++ ";"%byte :: render ps g) ++ x00 :: junk)
        with (pre ++ render_pair q ++ ";"%byte :: render ps g ++ x00 :: junk)
        by (rewrite <- app_assoc; reflexivity).
      rewrite scan_step_more by assumption.
      destruct (bytes_eqb (c_name q) (ngx_str_bytes name)); [reflexivity|].
      apply IH; try assumption.
      * simpl in Hfuel. lia.
      * rewrite !length_app. cbn [length]. lia.
Qed.

(** *** The iteration budget is never used up *)

Lemma skip_space_runs m : forall s,
  skip_space m s <> Fuel /\ (forall s', skip_space m s = Ret s' -> s <= s').
Proof.
  induction m as [|c m IH]; intro s; cbn [skip_space]; [split; discriminate|].
  destruct (isspace c).
  - destruct (IH (S s)) as (H1 & H2). split; [exact H1|].
    intros s' E. apply H2 in E. lia.
  - split; [discriminate|]. intros s' E. injection E as <-. lia.
Qed.

Lemma memchr_runs m : forall s c n,
  memchr m s c n <> Fuel /\ (forall k, memchr m s c n = Ret (Some k) -> s <= k).
Proof.
  induction m as [|b m IH]; intros s c n; cbn [memchr].
  - destruct (n =? 0)%N; split; discriminate.
  - destruct (n =? 0)%N; [split; discriminate|].
    destruct (Byte.eqb b c).
    + split; [discriminate|]. intros k E. injection E as <-. lia.
    + destruct (IH (S s) c (N.pred n)) as (H1 & H2). split; [exact H1|].
      intros k E. apply H2 in E. lia.
Qed.

Lemma take_value_runs p m end_ val semicolon :
  take_value p m end_ val semicolon <> Fuel.
Proof.
  unfold take_value, ngx_pnalloc, ngx_cpymem, read.
  destruct semicolon; [|discriminate].
  destruct (pool_fails p (pool_calls p)); [discriminate|].
  destruct (_ <=? _)%N; discriminate.
Qed.

(** The loop over a header value ends within [end_ - start + 1] turns. *)
Lemma scan_value_runs fuel : forall p m end_ name start,
  end_ - start < fuel -> scan_value fuel p m end_ name start <> Fuel.
Proof.
  induction fuel as [|fuel IH]; intros p m end_ name start Hfuel; [lia|].
  rewrite scan_value_S.
  destruct (Nat.ltb_spec start end_) as [Hlt|_]; [|discriminate].
  destruct (skip_space_runs (skipn start m) start) as (Hs1 & Hs2).
  destruct (skip_space (skipn start m) start) as [start1| |]; cbn [bind];
    [|discriminate|congruence].
  specialize (Hs2 _ eq_refl).
  destruct (memchr_runs (skipn start1 m) start1 "="%byte (ptrdiff end_ start1))
    as (He1 & He2).
  destruct (memchr (skipn start1 m) start1 "="%byte (ptrdiff end_ start1))
    as [[equals_sign|]| |]; cbn [bind]; [|discriminate|discriminate|congruence].
  specialize (He2 _ eq_refl). cbv zeta.
  destruct (memchr_runs (skipn (S equals_sign) m) (S equals_sign) ";"%byte
              (ptrdiff end_ (S equals_sign))) as (Hc1 & Hc2).
  destruct (memchr (skipn (S equals_sign) m) (S equals_sign) ";"%byte
              (ptrdiff end_ (S equals_sign))) as [semicolon| |]; cbn [bind];
    [|discriminate|congruence].
  destruct (_ && _); [apply take_value_runs|].
  destruct semicolon as [semicolon|]; [|discriminate].
  specialize (Hc2 _ eq_refl). apply IH. lia.
Qed.

(** [find_cookie] returns, or leaves the readable memory: the budget of the
    model is enough for every request. *)
Lemma find_cookie_runs r name v : find_cookie r name v <> Fuel.
Proof.
  unfold find_cookie. generalize (pool r) as p. intro p.
  induction (cookies r) as [|cookie cs IH]; cbn [find_cookie_from]; [discriminate|].
  pose proof (@scan_value_runs (S (N.to_nat (len (value cookie)))) p
                (mem_of (value cookie)) (N.to_nat (len (value cookie))) name 0) as H.
  destruct (scan_value _ p _ _ name 0) as [[|ret v' p']| |]; cbn [bind];
    [exact IH | discriminate | discriminate | exfalso; apply H; [lia | reflexivity]].
Qed.

Lemma length_render_ge ps g : length ps <= length (render ps g).
Proof.
  induction ps as [|q ps IH]; [simpl; lia|].
  cbn [render length]. unfold render_pair. rewrite !length_app. cbn [length].
  destruct ps as [|q' ps]; [destruct g; simpl; lia|].
  cbn [length] in *. lia.
Qed.

(** [find_cookie] on a sequence of terminated headers, from their shapes. *)
Lemma find_cookie_render cs hs : forall p name v,
  Forall2 carries cs hs -> readable name ->
  find_cookie_from p cs name v = find_pairs p (ngx_str_bytes name) hs v.
Proof.
  intros p name v HF Hr. induction HF as [|h x cs hs Hc HF IH]; [reflexivity|].
  destruct Hc as (Hval & Hwf & Hg & Hfit).
  cbn [find_cookie_from find_pairs]. unfold mem_of. rewrite Hval. cbn [len data].
  rewrite Nat2N.id.
  pose proof (length_render_ge (h_pairs x) (h_rest x)) as Hge.
  pose proof (@scan_value_render (h_pairs x) [] (S (length (render (h_pairs x) (h_rest x))))
                p (h_rest x) (h_junk x) name Hwf Hg Hr) as E.
  cbn [app length Nat.add] in E. rewrite E by (assumption || lia).
  destruct (scan_pairs p (ngx_str_bytes name) (h_pairs x) (h_rest x) (h_junk x))
    as [[|ret v' p']| |]; cbn [bind]; [exact IH | reflexivity..].
Qed.

Lemma scan_pairs_absent p target ps g junk :
  (forall q, In q ps -> c_name q <> target) ->
  scan_pairs p target ps g junk = Ret Break.
Proof.
  induction ps as [|q ps IH]; intro H; [reflexivity|].
  cbn [scan_pairs].
  destruct (bytes_eqb (c_name q) target) eqn:E.
  - apply bytes_eqb_eq in E. exfalso. apply (H q); [left; reflexivity | exact E].
  - apply IH. intros q' Hq'. apply H. right. exact Hq'.
Qed.

Lemma scan_pairs_return p target ps g junk ret v' p' :
  scan_pairs p target ps g junk = Ret (Return ret v' p') ->
  exists q, In q ps /\ c_name q = target.
Proof.
  induction ps as [|q ps IH]; cbn [scan_pairs]; [discriminate|].
  destruct (bytes_eqb (c_name q) target) eqn:E.
  - intros _. exists q. split; [left; reflexivity | apply bytes_eqb_eq; exact E].
  - intro H. destruct (IH H) as (q' & Hin & Hn). exists q'. split; [right|]; assumption.
Qed.

(** The first pair of the name in a header: the value handed back runs to
    the end of the header. *)
Lemma scan_pairs_first p target before q after g junk :
  (forall q', In q' before -> c_name q' <> target) -> c_name q = target ->
  scan_pairs p target (before ++ q :: after) g junk =
  match after, g with
  | [], None => Ret (Return 1 {| len := N.of_nat (length (c_value q));
                                 data := Some (c_value q ++ x00 :: junk) |} p)
  | _, _ =>
      let rest := c_value q ++ ";"%byte :: render after g in
      if pool_fails p (pool_calls p)
      then Ret (Return 0 {| len := N.of_nat (length rest); data := None |} (pool_next p))
      else Ret (Return 1 {| len := N.of_nat (length rest);
                            data := Some (rest ++ [x00]) |} (pool_next p))
  end.
Proof.
  intros Hb Hq. induction before as [|q0 before IH]; cbn [app scan_pairs].
  - rewrite (proj2 (bytes_eqb_eq _ _) Hq). reflexivity.
  - destruct (bytes_eqb (c_name q0) target) eqn:E.
    + apply bytes_eqb_eq in E. exfalso. apply (Hb q0); [left; reflexivity | exact E].
    + apply IH. intros q' Hq'. apply Hb. right. exact Hq'.
Qed.

(** *** Every header has a shape *)





Lemma percent_digits c :
  is_upper_hex (hex_digit (N.shiftr (Byte.to_N c) 4)) = true /\
  is_upper_hex (hex_digit (N.land (Byte.to_N c) 15)) = true /\
  (16 * hex_value (hex_digit (N.shiftr (Byte.to_N c) 4))
   + hex_value (hex_digit (N.land (Byte.to_N c) 15)) = Byte.to_N c)%N.
Proof. destruct c; vm_compute; repeat split. Qed.

(** ** Occurrences of the separator: lemmas *)

(** No occurrence spans the seam when the right part begins with neither
    [3] nor [F]. *)
Lemma occurrences_seam a b :
  (forall c t, b = c :: t -> c <> "3"%byte /\ c <> "F"%byte) ->
  occurrences PERCENT_3F (a ++ b) = occurrences PERCENT_3F a + occurrences PERCENT_3F b.
Proof.
  intro Hb. induction a as [|x a IH]; [reflexivity|].
  cbn [app occurrences]. rewrite IH.
  assert (E : prefixb PERCENT_3F (x :: a ++ b) = prefixb PERCENT_3F (x :: a)).
  { change PERCENT_3F with ["%"%byte; "3"%byte; "F"%byte]. cbn [prefixb].
    destruct (Byte.eqb "%" x); [|reflexivity]. cbn [andb].
    destruct a as [|y a]; cbn [app].
    - destruct b as [|c t]; [reflexivity|].
      destruct (Hb c t eq_refl) as [H3 _].
      rewrite byte_eqb_neq by congruence. reflexivity.
    - destruct (Byte.eqb "3" y); [|reflexivity]. cbn [andb].
      destruct a as [|z a]; cbn [app]; [|reflexivity].
      destruct b as [|c t]; [reflexivity|].
      destruct (Hb c t eq_refl) as [_ HF].
      rewrite byte_eqb_neq by congruence. reflexivity. }
  rewrite E. lia.
Qed.

Lemma occurrences_percent c rest :
  occurrences PERCENT_3F (percent c ++ rest)
  = (if Byte.eqb c "?"%byte then 1 else 0) + occurrences PERCENT_3F rest.
Proof. destruct c; reflexivity. Qed.

Lemma occurrences_param rest :
  occurrences PERCENT_3F (CAS_SERVICE_PARAM ++ rest) = occurrences PERCENT_3F rest.
Proof. reflexivity. Qed.

Section Separator.

Variable tbl : u_char -> bool.
Hypothesis percent_escaped : tbl "%"%byte = true.
Hypothesis question_escaped : tbl "?"%byte = true.

(** In an escaped string every [%3F] is the image of a [?]. *)
Lemma occurrences_escape s rest :
  occurrences PERCENT_3F (escape tbl s ++ rest)
  = count_byte "?"%byte s + occurrences PERCENT_3F rest.
Proof.
  induction s as [|c s IH]; [reflexivity|].
  change (escape tbl (c :: s)) with ((if tbl c then percent c else [c]) ++ escape tbl s).
  rewrite <- app_assoc. cbn [count_byte].
  destruct (tbl c) eqn:E.
  - rewrite occurrences_percent, IH. lia.
  - assert (c <> "%"%byte) by congruence. assert (c <> "?"%byte) by congruence.
    cbn [app occurrences]. rewrite IH.
    change PERCENT_3F with ["%"%byte; "3"%byte; "F"%byte]. cbn [prefixb].
    rewrite (byte_eqb_neq (x := "%"%byte) (y := c)) by congruence.
    rewrite (byte_eqb_neq (x := c) (y := "?"%byte)) by congruence.
    reflexivity.
Qed.

Lemma escape_head_clean s rest :
  (forall c t, rest = c :: t -> c <> "3"%byte /\ c <> "F"%byte) ->
  (forall c t, s = c :: t -> c <> "3"%byte /\ c <> "F"%byte) ->
  forall c t, escape tbl s ++ rest = c :: t -> c <> "3"%byte /\ c <> "F"%byte.
Proof.
  intros Hrest Hs c t. destruct s as [|x s]; [apply Hrest|].
  change (escape tbl (x :: s)) with ((if tbl x then percent x else [x]) ++ escape tbl s).
  destruct (tbl x); cbn [percent app]; intro E; injection E as <- _.
  - split; discriminate.
  - apply (Hs x s eq_refl).
Qed.

End Separator.

(** ** The cookie scanner: the claims *)

Lemma ngx_str_bytes_exact (s junk : list u_char) :
  ngx_str_bytes {| len := N.of_nat (length s); data := Some (s ++ junk) |} = s.
Proof.
  unfold ngx_str_bytes, mem_of. cbn [len data]. rewrite Nat2N.id.
  apply firstn_exact. reflexivity.
Qed.

Lemma carries_cookie_header ps g :
  Forall wf_pair ps -> wf_rest g ->
  (N.of_nat (length (render ps g)) < 2 ^ SIZE_WIDTH)%N ->
  carries (cookie_header (render ps g)) {| h_pairs := ps; h_rest := g; h_junk := [] |}.
Proof. intros Hwf Hg Hfit. repeat split; assumption. Qed.




(** C1. What [find_cookie] hands back for the first pair of the name in a
    header: the bytes from behind its [=] to the end of the header.  That is
    the value when the pair is the last thing in the header; when a [;]
    follows, the [;] and all that follows it are part of what is handed
    back. *)
Theorem find_cookie_value_runs_to_end_of_header
    (r : ngx_http_request_t) (h : ngx_table_elt_t) (before after : list cookie_pair)
    (q : cookie_pair) (g : option (list u_char)) (junk : list u_char)
    (name v : ngx_str_t) :
  cookies r = [h] ->
  carries h {| h_pairs := before ++ q :: after; h_rest := g; h_junk := junk |} ->
  readable name ->
  (forall q', In q' before -> c_name q' <> ngx_str_bytes name) ->
  c_name q = ngx_str_bytes name ->
  pool_fails (pool r) (pool_calls (pool r)) = false ->
  exists v' p',
    find_cookie r name v = Ret (1%Z, v', p') /\
    ngx_str_bytes v' = c_value q ++ match after, g with
                                    | [], None => []
                                    | _, _ => ";"%byte :: render after g
                                    end.
Proof.
  intros Hcs Hc Hr Hbefore Hq Hgrant. unfold find_cookie. rewrite Hcs.
  rewrite (find_cookie_render _ _ (Forall2_cons _ _ Hc (Forall2_nil _)) Hr).
  cbn [find_pairs h_pairs h_rest h_junk].
  rewrite (@scan_pairs_first _ _ _ _ after g junk Hbefore Hq).
  assert (Hcase : (after = [] /\ g = None) \/ (after <> [] \/ g <> None)).
  { destruct after; [|right; left; discriminate].
    destruct g; [right; right; discriminate | left; split; reflexivity]. }
  destruct Hcase as [[-> ->]|Hmore].
  - cbn [bind]. do 2 eexists. split; [reflexivity|].
    rewrite ngx_str_bytes_exact, app_nil_r. reflexivity.
  - assert (E : forall (A : Type) (x y : A),
               match after, g with [], None => x | _, _ => y end = y).
    { intros A x y. destruct after; [|reflexivity].
      destruct g; [reflexivity|]. destruct Hmore; congruence. }
    rewrite !E. cbv zeta. rewrite Hgrant. cbn [bind].
    do 2 eexists. split; [reflexivity|]. apply ngx_str_bytes_exact.
Qed.

(** The header [foo=42; bar=1337] of the comment on line 53, searched for
    [foo]: the value handed back is [42; bar=1337]. *)
Lemma find_cookie_value_runs_to_end_of_header_witness :
  exists v' p',
    find_cookie (request_of scenario_conf granting_pool
                   [cookie_header (bytes "foo=42; bar=1337")] (bytes "/") [])
                (ngx_string (bytes "foo")) ngx_null_string = Ret (1%Z, v', p') /\
    ngx_str_bytes v' = bytes "42; bar=1337".
Proof.
  apply (@find_cookie_value_runs_to_end_of_header
           (request_of scenario_conf granting_pool
              [cookie_header (bytes "foo=42; bar=1337")] (bytes "/") [])
           (cookie_header (bytes "foo=42; bar=1337"))
           []
           [ {| c_space := bytes " "; c_name := bytes "bar"; c_value := bytes "1337" |} ]
           {| c_space := []; c_name := bytes "foo"; c_value := bytes "42" |}
           None [] (ngx_string (bytes "foo")) ngx_null_string).
  - reflexivity.
  - apply (@carries_cookie_header
             [ {| c_space := []; c_name := bytes "foo"; c_value := bytes "42" |};
               {| c_space := bytes " "; c_name := bytes "bar"; c_value := bytes "1337" |} ]
             None).
    + repeat constructor; simpl; try (intros c t E; injection E as <- _; reflexivity);
        try discriminate; intuition discriminate.
    + exact I.
    + reflexivity.
  - apply readable_ngx_string.
  - intros q' [].
  - reflexivity.
  - reflexivity.
Defined.

(** C10. A pair of a header is matched only when its name is the target, of
    the same length and the same bytes.  Whatever the shapes of the headers
    of the request: if the name of every pair differs from the target (a
    strict prefix of it, a strict suffix of it, a longer name that it begins,
    the same letters in another case), [find_cookie] returns 0 and leaves the
    value as it was; and when it returns 1, some pair has the target for a
    name. *)
Theorem find_cookie_matches_exact_name
    (r : ngx_http_request_t) (hs : list header_shape) (name v : ngx_str_t) :
  Forall2 carries (cookies r) hs ->
  readable name ->
  ((forall x q, In x hs -> In q (h_pairs x) -> c_name q <> ngx_str_bytes name) ->
   find_cookie r name v = Ret (0%Z, v, pool r)) /\
  (forall v' p', find_cookie r name v = Ret (1%Z, v', p') ->
   exists x q, In x hs /\ In q (h_pairs x) /\ c_name q = ngx_str_bytes name).
Proof.
  intros HF Hr. unfold find_cookie. rewrite (find_cookie_render _ _ HF Hr).
  clear HF. generalize (pool r) as p. intro p. split.
  - induction hs as [|x hs IH]; intro H; [reflexivity|].
    cbn [find_pairs]. rewrite scan_pairs_absent.
    + cbn [bind]. apply IH. intros y q Hy. apply H. right. exact Hy.
    + intros q Hq. apply (H x q); [left; reflexivity | exact Hq].
  - induction hs as [|x hs IH]; intros v' p'; cbn [find_pairs]; [discriminate|].
    destruct (scan_pairs p (ngx_str_bytes name) (h_pairs x) (h_rest x) (h_junk x))
      as [[|ret v0 p0]| |] eqn:E; cbn [bind]; try discriminate.
    + intro H. destruct (IH _ _ H) as (y & q & Hy & Hq & Hn).
      exists y, q. repeat split; [right|..]; assumption.
    + intros _. destruct (scan_pairs_return _ _ _ _ _ E) as (q & Hq & Hn).
      exists x, q. repeat split; [left; reflexivity|..]; assumption.
Qed.

(** Searching for [CAS] in the header [CASC=ST-123-abc] finds nothing. *)
Lemma find_cookie_matches_exact_name_witness :
  find_cookie (request_of scenario_conf granting_pool
                 [cookie_header (bytes "CASC=ST-123-abc")] (bytes "/") [])
              (ngx_string (bytes "CAS")) ngx_null_string
  = Ret (0%Z, ngx_null_string, granting_pool).
Proof.
  apply (proj1 (@find_cookie_matches_exact_name
           (request_of scenario_conf granting_pool
              [cookie_header (bytes "CASC=ST-123-abc")] (bytes "/") [])
           [ {| h_pairs := [ {| c_space := []; c_name := bytes "CASC";
                                c_value := bytes "ST-123-abc" |} ];
                h_rest := None; h_junk := [] |} ]
           (ngx_string (bytes "CAS")) ngx_null_string
           (Forall2_cons _ _
              (@carries_cookie_header
                 [ {| c_space := []; c_name := bytes "CASC";
                      c_value := bytes "ST-123-abc" |} ]
                 None
                 ltac:(repeat constructor; simpl;
                       try (intros c t E; injection E as <- _; reflexivity);
                       intuition discriminate)
                 I eq_refl)
              (Forall2_nil _))
           (readable_ngx_string _))).
  intros x q [<-|[]] [<-|[]]. discriminate.
Defined.

(** C9. A header that is white space only.  With a terminator behind it in
    memory the scan ends with "not found"; but the byte that decides this is
    the terminator, at offset [len], behind the end of the header: when no
    byte can be read there, the skip of line 36 leaves the readable memory. *)
Theorem whitespace_skip_reads_behind_header
    (r : ngx_http_request_t) (ws junk : list u_char) (name v : ngx_str_t) :
  ws <> [] ->
  Forall (fun c => isspace c = true) ws ->
  (N.of_nat (length ws) < 2 ^ SIZE_WIDTH)%N ->
  (cookies r = [raw_header (length ws) ws] -> find_cookie r name v = Segv) /\
  (cookies r = [raw_header (length ws) (ws ++ x00 :: junk)] ->
   find_cookie r name v = Ret (0%Z, v, pool r)).
Proof.
  intros Hne Hws Hfit. unfold find_cookie. split; intros ->.
  - cbn [find_cookie_from raw_header value len data mem_of]. rewrite Nat2N.id.
    rewrite scan_value_S.
    destruct (Nat.ltb_spec 0 (length ws)) as [_|H0];
      [|destruct ws; [congruence | simpl in H0; lia]].
    cbn [skipn]. rewrite skip_space_leaves by assumption. reflexivity.
  - cbn [find_cookie_from raw_header value len data mem_of]. rewrite Nat2N.id.
    assert (Hno : ~ In "="%byte ws).
    { intro Hin. rewrite Forall_forall in Hws. apply Hws in Hin. discriminate. }
    pose proof (@scan_value_garbage (length ws) (pool r) [] ws junk name Hno Hfit) as E.
    cbn [app length Nat.add] in E. rewrite E. reflexivity.
Qed.

(** A header that is one tab. *)
Lemma whitespace_skip_reads_behind_header_witness :
  find_cookie (request_of scenario_conf granting_pool
                 [raw_header 1 [x09]] (bytes "/") [])
              (ngx_string CAS_COOKIE_NAME) ngx_null_string = Segv /\
  find_cookie (request_of scenario_conf granting_pool
                 [raw_header 1 [x09; x00]] (bytes "/") [])
              (ngx_string CAS_COOKIE_NAME) ngx_null_string
  = Ret (0%Z, ngx_null_string, granting_pool).
Proof.
  split.
  - apply (proj1 (@whitespace_skip_reads_behind_header
             (request_of scenario_conf granting_pool [raw_header 1 [x09]] (bytes "/") [])
             [x09] [] (ngx_string CAS_COOKIE_NAME) ngx_null_string
             ltac:(discriminate) ltac:(repeat constructor) eq_refl)).
    reflexivity.
  - apply (proj2 (@whitespace_skip_reads_behind_header
             (request_of scenario_conf granting_pool [raw_header 1 [x09; x00]]
                (bytes "/") [])
             [x09] [] (ngx_string CAS_COOKIE_NAME) ngx_null_string
             ltac:(discriminate) ltac:(repeat constructor) eq_refl)).
    reflexivity.
Defined.

(** ** The stored service URL *)

(** C2. The directive [auth_cas_service_url], its argument holding [n]
    bytes to escape, [n] at least 1: the stored length is that of the
    argument plus [n], while the escaped form has two bytes more for each of
    the [n]; the stored string is the escaped form without its last [n]
    bytes, and what the escaper wrote behind the block of [len + 1] bytes has
    gone into the pool. *)
Theorem set_auth_cas_service_url_stores_short
    (tbl : u_char -> bool) (p : ngx_pool_t) (value_ : ngx_str_t)
    (ctx : ngx_http_auth_cas_ctx_t) :
  let url := ngx_str_bytes value_ in
  let n := ngx_escape_uri_null tbl url in
  readable value_ ->
  (1 <= n)%N ->
  (len value_ + n + 1 < 2 ^ SIZE_WIDTH)%N ->
  pool_fails p (pool_calls p) = false ->
  exists ctx' p',
    set_auth_cas_service_url tbl p value_ ctx = Ret (NGX_CONF_OK, ctx', p') /\
    len (auth_cas_service_url ctx') = (len value_ + n)%N /\
    N.of_nat (length (escape tbl url)) = (len value_ + 2 * n)%N /\
    ngx_str_bytes (auth_cas_service_url ctx')
      = firstn (N.to_nat (len value_ + n)) (escape tbl url) /\
    pool_damage p' = pool_damage p ++ skipn (N.to_nat (len value_ + n + 1)) (escape tbl url).
Proof.
  intros url n Hr Hn Hfit Hgrant.
  assert (Hlen : N.of_nat (length url) = len value_).
  { unfold url. rewrite (length_ngx_str_bytes Hr). lia. }
  pose proof (length_escape tbl url) as Hesc. fold n in Hesc.
  unfold set_auth_cas_service_url, ngx_escape_uri.
  rewrite (read_readable Hr). cbn [bind]. fold url. fold n.
  rewrite size_t_fits by lia.
  replace (Z.of_N (len value_ + n) + 1)%Z with (Z.of_N (len value_ + n + 1)) by lia.
  rewrite size_t_fits by lia.
  unfold ngx_pcalloc. rewrite Hgrant. rewrite (escaped_to_readable tbl _ Hr).
  cbn [bind]. fold url.
  set (b := repeat x00 (N.to_nat (len value_ + n + 1))).
  assert (Hb : @length u_char b = N.to_nat (len value_ + n + 1)) by apply repeat_length.
  destruct (put_all_spec (escape tbl url) (tidy_cursor_at b)) as (Ht & Hst & Hp & Hbl).
  cbn [pos block cursor_at stream firstn overrun app] in Hp, Hbl, Hst.
  set (c := put_all (escape tbl url) (cursor_at b)) in *.
  assert (Hfull : block c ++ overrun c = escape tbl url).
  { rewrite <- Hst. unfold stream. rewrite firstn_all2 by lia. reflexivity. }
  assert (Hk : length (block c) = N.to_nat (len value_ + n + 1))
    by (rewrite Hbl; exact Hb).
  assert (Hblock : block c = firstn (N.to_nat (len value_ + n + 1)) (escape tbl url)).
  { rewrite <- Hfull. symmetry. apply firstn_exact. symmetry. exact Hk. }
  assert (Hover : overrun c = skipn (N.to_nat (len value_ + n + 1)) (escape tbl url)).
  { rewrite <- Hfull. symmetry. apply skipn_exact. symmetry. exact Hk. }
  do 2 eexists. split; [reflexivity|]. cbn [auth_cas_service_url len].
  repeat split.
  - lia.
  - unfold ngx_str_bytes, mem_of. cbn [len data]. rewrite Hblock, firstn_firstn.
    f_equal. lia.
  - unfold written. cbn [pool_damage pool_next]. rewrite Hover. reflexivity.
Qed.

(** The service URL [https://app.example.com/?lang=en] under a table of the
    class of the spec: 32 bytes, 6 of them to escape.  The escaped form has
    44 bytes; 38 are stored and 5 are written behind the block of 39. *)
Lemma set_auth_cas_service_url_stores_short_witness :
  exists ctx' p',
    set_auth_cas_service_url spec_escape_args granting_pool
      (ngx_string (bytes "https://app.example.com/?lang=en"))
      ngx_http_auth_cas_create_loc_conf
    = Ret (NGX_CONF_OK, ctx', p') /\
    escape spec_escape_args (bytes "https://app.example.com/?lang=en")
      = bytes "https%3A%2F%2Fapp.example.com%2F%3Flang%3Den" /\
    ngx_str_bytes (auth_cas_service_url ctx')
      = bytes "https%3A%2F%2Fapp.example.com%2F%3Flan" /\
    pool_damage p' = bytes "%3Den".
Proof.
  destruct (@set_auth_cas_service_url_stores_short spec_escape_args granting_pool
              (ngx_string (bytes "https://app.example.com/?lang=en"))
              ngx_http_auth_cas_create_loc_conf
              (readable_ngx_string _) ltac:(vm_compute; discriminate) eq_refl eq_refl)
    as (ctx' & p' & Hrun & _ & _ & Hbytes & Hdamage).
  exists ctx', p'. split; [exact Hrun|]. split; [reflexivity|].
  split; [rewrite Hbytes | rewrite Hdamage]; reflexivity.
Defined.

(** ** The escaper: the claim *)



(** ** The login URL: the claims *)

Lemma scenario_inputs_ok conf p cs path query :
  readable (auth_cas_login_url conf) -> readable (auth_cas_service_url conf) ->
  (len (auth_cas_login_url conf) + sizeof CAS_SERVICE_PARAM
   + len (auth_cas_service_url conf) + N.of_nat (length path) * 3 + 3
   + N.of_nat (length query) * 3 < 2 ^ SIZE_WIDTH)%N ->
  url_inputs_ok (request_of conf p cs path query).
Proof.
  intros Hl Hs Hfit. repeat split; try assumption; apply readable_ngx_string.
Qed.

(** C6. With its block granted, [create_login_url] returns 1 and the string
    it leaves is, byte for byte and with its exact length, the login URL,
    [?service=], the stored service URL as it is, the escaped path and, only
    when the query is not empty, [%3F] and the escaped query. *)
Theorem create_login_url_layout (tbl : u_char -> bool) (r : ngx_http_request_t) :
  url_inputs_ok r ->
  pool_fails (pool r) (pool_calls (pool r)) = false ->
  exists s,
    create_login_url tbl r = Ret (1%Z, s, pool_next (pool r)) /\
    ngx_str_bytes s
      = ngx_str_bytes (auth_cas_login_url (loc_conf r))
        ++ bytes "?service="
        ++ ngx_str_bytes (auth_cas_service_url (loc_conf r))
        ++ escape tbl (ngx_str_bytes (uri r))
        ++ match ngx_str_bytes (args r) with
           | [] => []
           | q => bytes "%3F" ++ escape tbl q
           end /\
    len s = N.of_nat (length (ngx_str_bytes s)).
Proof.
  intros Hok Hgrant.
  destruct (create_login_url_ok tbl Hok Hgrant) as (s & Hrun & Hbytes & Hlen & _).
  exists s. split; [exact Hrun|]. split; [exact Hbytes|].
  rewrite Hbytes. exact Hlen.
Qed.

(** Scenario 3 of spec 8. *)
Lemma create_login_url_layout_witness :
  exists s,
    create_login_url spec_escape_args
      (request_of scenario_conf granting_pool [] (bytes "/a b") (bytes "x=1&y=2"))
    = Ret (1%Z, s, pool_next granting_pool) /\
    ngx_str_bytes s
    = bytes "https://cas.example.com/login?service=https%3A%2F%2Fapp.example.com%2F%2Fa%20b%3Fx%3D1%26y%3D2".
Proof.
  destruct (@create_login_url_layout spec_escape_args
              (request_of scenario_conf granting_pool [] (bytes "/a b") (bytes "x=1&y=2"))
              (@scenario_inputs_ok scenario_conf granting_pool [] (bytes "/a b")
                 (bytes "x=1&y=2") (readable_ngx_string _) (readable_ngx_string _) eq_refl)
              eq_refl)
    as (s & Hrun & Hbytes & _).
  exists s. split; [exact Hrun|]. rewrite Hbytes. reflexivity.
Defined.

(** C8, as the claim has it, fails: a [?] in the query, or in the path, is
    escaped to a [%3F] of its own. *)
Lemma separator_is_not_the_only_percent_3F :
  (exists s p,
     create_login_url spec_escape_args
       (request_of scenario_conf granting_pool [] (bytes "/secure") (bytes "a?b"))
     = Ret (1%Z, s, p) /\
     occurrences PERCENT_3F (ngx_str_bytes s) = 2) /\
  (exists s p,
     create_login_url spec_escape_args
       (request_of scenario_conf granting_pool [] (bytes "/a?b") [])
     = Ret (1%Z, s, p) /\
     occurrences PERCENT_3F (ngx_str_bytes s) = 1).
Proof.
  split.
  - destruct (@create_login_url_ok spec_escape_args
                (request_of scenario_conf granting_pool [] (bytes "/secure") (bytes "a?b"))
                (@scenario_inputs_ok scenario_conf granting_pool [] (bytes "/secure")
                   (bytes "a?b") (readable_ngx_string _) (readable_ngx_string _) eq_refl)
                eq_refl)
      as (s & Hrun & Hbytes & _).
    exists s, (pool_next granting_pool). split; [exact Hrun|]. rewrite Hbytes. reflexivity.
  - destruct (@create_login_url_ok spec_escape_args
                (request_of scenario_conf granting_pool [] (bytes "/a?b") [])
                (@scenario_inputs_ok scenario_conf granting_pool [] (bytes "/a?b")
                   [] (readable_ngx_string _) (readable_ngx_string _) eq_refl)
                eq_refl)
      as (s & Hrun & Hbytes & _).
    exists s, (pool_next granting_pool). split; [exact Hrun|]. rewrite Hbytes. reflexivity.
Qed.

(** C8, amended.  The builder itself writes [%3F] once when the query is not
    empty and not at all when it is empty, and it writes it between the
    escaped path and the escaped query.  The whole output holds, besides,
    one [%3F] for every [?] of the path and of the query, and those of the
    configured login URL and of the stored service URL. *)
Theorem separator_occurrences
    (tbl : u_char -> bool) (r : ngx_http_request_t) (path_tail : list u_char) :
  tbl "%"%byte = true ->
  tbl "?"%byte = true ->
  url_inputs_ok r ->
  pool_fails (pool r) (pool_calls (pool r)) = false ->
  ngx_str_bytes (uri r) = "/"%byte :: path_tail ->
  exists s,
    create_login_url tbl r = Ret (1%Z, s, pool_next (pool r)) /\
    ngx_str_bytes s
      = (ngx_str_bytes (auth_cas_login_url (loc_conf r)) ++ CAS_SERVICE_PARAM
         ++ ngx_str_bytes (auth_cas_service_url (loc_conf r))
         ++ escape tbl (ngx_str_bytes (uri r)))
        ++ match ngx_str_bytes (args r) with
           | [] => []
           | q => PERCENT_3F ++ escape tbl q
           end /\
    occurrences PERCENT_3F (ngx_str_bytes s)
      = occurrences PERCENT_3F (ngx_str_bytes (auth_cas_login_url (loc_conf r)))
        + occurrences PERCENT_3F (ngx_str_bytes (auth_cas_service_url (loc_conf r)))
        + count_byte "?"%byte (ngx_str_bytes (uri r))
        + match ngx_str_bytes (args r) with
          | [] => 0
          | q => 1 + count_byte "?"%byte q
          end.
Proof.
  intros Hpercent Hquestion Hok Hgrant Hpath.
  destruct (create_login_url_ok tbl Hok Hgrant) as (s & Hrun & Hbytes & _).
  exists s. split; [exact Hrun|].
  unfold login_url_layout in Hbytes. rewrite Hbytes. split.
  - rewrite <- !app_assoc. reflexivity.
  - set (sep := match ngx_str_bytes (args r) with
                | [] => []
                | q => bytes "%3F" ++ escape tbl q
                end).
    assert (Hsep : forall c t, sep = c :: t -> c <> "3"%byte /\ c <> "F"%byte).
    { unfold sep. intros c t. destruct (ngx_str_bytes (args r)); [discriminate|].
      intro E. injection E as <- _. split; discriminate. }
    rewrite occurrences_seam.
    2:{ intros c t E. injection E as <- _. split; discriminate. }
    rewrite occurrences_param, occurrences_seam.
    2:{ apply escape_head_clean; [exact Hsep|].
        rewrite Hpath. intros c t E. injection E as <- _. split; discriminate. }
    rewrite (@occurrences_escape tbl Hpercent Hquestion).
    unfold sep. destruct (ngx_str_bytes (args r)) as [|x q]; [cbn [occurrences]; lia|].
    change (bytes "%3F") with (percent "?"%byte).
    rewrite occurrences_percent.
    rewrite <- (app_nil_r (escape tbl (x :: q))).
    rewrite (@occurrences_escape tbl Hpercent Hquestion).
    change (Byte.eqb "?" "?") with true. cbn [occurrences]. lia.
Qed.

(** Scenario 3 of spec 8: one [%3F], the separator. *)
Lemma separator_occurrences_witness :
  exists s,
    create_login_url spec_escape_args
      (request_of scenario_conf granting_pool [] (bytes "/a b") (bytes "x=1&y=2"))
    = Ret (1%Z, s, pool_next granting_pool) /\
    occurrences PERCENT_3F (ngx_str_bytes s) = 1.
Proof.
  destruct (@separator_occurrences spec_escape_args
              (request_of scenario_conf granting_pool [] (bytes "/a b") (bytes "x=1&y=2"))
              (bytes "a b") eq_refl eq_refl
              (@scenario_inputs_ok scenario_conf granting_pool [] (bytes "/a b")
                 (bytes "x=1&y=2") (readable_ngx_string _) (readable_ngx_string _) eq_refl)
              eq_refl eq_refl)
    as (s & Hrun & _ & Hocc).
  exists s. split; [exact Hrun|]. rewrite Hocc. reflexivity.
Defined.

(** ** The handler: the claims *)

Section Handler.

Variable tbl : u_char -> bool.
Variable r : ngx_http_request_t.

Lemma handler_inactive :
  auth_cas (loc_conf r) = 0%Z ->
  ngx_http_auth_cas_handler tbl r = Ret (NGX_DECLINED, r).
Proof. intro H. unfold ngx_http_auth_cas_handler. rewrite H. reflexivity. Qed.




Lemma handler_redirects v pl :
  auth_cas (loc_conf r) <> 0%Z ->
  find_cookie r (auth_cas_cookie (loc_conf r)) ngx_null_string = Ret (0%Z, v, pl) ->
  url_inputs_ok r ->
  pool_fails pl (pool_calls pl) = false ->
  pool_fails pl (S (pool_calls pl)) = false ->
  exists r' loc,
    ngx_http_auth_cas_handler tbl r = Ret (NGX_HTTP_MOVED_TEMPORARILY, r') /\
    location (headers_out r') = Some loc /\
    headers (headers_out r') = headers (headers_out r) ++ [loc] /\
    ngx_str_bytes (key loc) = bytes "Location" /\
    ngx_str_bytes (value loc) = login_url_layout tbl r.
Proof.
  intros Ha Hf Hok Hp1 Hp2. unfold ngx_http_auth_cas_handler.
  destruct (Z.eqb_spec (auth_cas (loc_conf r)) 0); [contradiction|].
  rewrite Hf. cbn [bind Z.eqb].
  destruct (@create_login_url_ok tbl (with_pool r pl) Hok Hp1) as (s & Hs & Hb & _).
  rewrite Hs. cbn [bind Z.eqb]. unfold send_redirect, ngx_list_push.
  cbn [pool with_pool pool_next pool_fails pool_calls]. rewrite Hp2. cbn [negb].
  do 2 eexists. split; [reflexivity|]. cbn [headers_out location headers value key].
  repeat split; first [exact Hb | apply ngx_str_bytes_ngx_string].
Qed.

End Handler.




(** C4.  The cookie is in the request, in front of a further pair, and the
    pool refuses the block for the copy of its value: [find_cookie] returns 0
    as if the cookie were absent, and the handler, its next requests
    granted, answers with the redirect.  With the block granted the same
    request is answered with the unauthorized status. *)
Theorem refused_copy_redirects_as_if_absent :
  response (ngx_http_auth_cas_handler spec_escape_args
              (request_of scenario_conf (refusing_pool 0)
                 [cookie_header (bytes "CASC=ST-123-abc; theme=dark")]
                 (bytes "/secure") []))
  = Ret (NGX_HTTP_MOVED_TEMPORARILY,
         Some (bytes "https://cas.example.com/login?service=https%3A%2F%2Fapp.example.com%2F%2Fsecure"))
  /\
  response (ngx_http_auth_cas_handler spec_escape_args
              (request_of scenario_conf granting_pool
                 [cookie_header (bytes "CASC=ST-123-abc; theme=dark")]
                 (bytes "/secure") []))
  = Ret (NGX_HTTP_UNAUTHORIZED, None).
Proof. split; vm_compute; reflexivity. Qed.

(** C7, as the claim has it, fails: with no login URL configured the request
    without cookie is redirected, to a location that begins with
    [?service=]. *)
Lemma missing_login_url_redirects :
  auth_cas_login_url conf_without_login_url = ngx_null_string /\
  response (ngx_http_auth_cas_handler spec_escape_args
              (request_of conf_without_login_url granting_pool [] (bytes "/secure") []))
  = Ret (NGX_HTTP_MOVED_TEMPORARILY,
         Some (bytes "?service=https%3A%2F%2Fapp.example.com%2F%2Fsecure")).
Proof. split; vm_compute; reflexivity. Qed.

(** C7, amended.  A login URL set at neither level: the merge returns
    [NGX_CONF_OK] and leaves the null string; and the active gate answers a
    request in which [find_cookie] finds nothing, the pool granting, with the
    redirect whose [Location] begins with [?service=], the empty login URL in
    front of it.  The login URL is looked at nowhere. *)
Theorem missing_login_url_is_not_checked
    (tbl : u_char -> bool) (prev conf : ngx_http_auth_cas_ctx_t)
    (r : ngx_http_request_t) (v : ngx_str_t) (pl : ngx_pool_t) :
  auth_cas_login_url prev = ngx_null_string ->
  auth_cas_login_url conf = ngx_null_string ->
  loc_conf r = snd (ngx_http_auth_cas_merge_loc_conf prev conf) ->
  auth_cas (loc_conf r) <> 0%Z ->
  url_inputs_ok r ->
  find_cookie r (auth_cas_cookie (loc_conf r)) ngx_null_string = Ret (0%Z, v, pl) ->
  pool_fails pl (pool_calls pl) = false ->
  pool_fails pl (S (pool_calls pl)) = false ->
  fst (ngx_http_auth_cas_merge_loc_conf prev conf) = NGX_CONF_OK /\
  auth_cas_login_url (loc_conf r) = ngx_null_string /\
  exists r' loc,
    ngx_http_auth_cas_handler tbl r = Ret (NGX_HTTP_MOVED_TEMPORARILY, r') /\
    location (headers_out r') = Some loc /\
    ngx_str_bytes (value loc)
    = CAS_SERVICE_PARAM
      ++ ngx_str_bytes (auth_cas_service_url (loc_conf r))
      ++ escape tbl (ngx_str_bytes (uri r))
      ++ match ngx_str_bytes (args r) with
         | [] => []
         | q => bytes "%3F" ++ escape tbl q
         end.
Proof.
  intros Hprev Hconf Hr Ha Hok Hf Hp1 Hp2.
  assert (Hnull : auth_cas_login_url (loc_conf r) = ngx_null_string).
  { rewrite Hr. cbn [ngx_http_auth_cas_merge_loc_conf snd auth_cas_login_url].
    rewrite Hconf. cbn [data ngx_null_string]. exact Hprev. }
  split; [reflexivity|]. split; [exact Hnull|].
  destruct (@handler_redirects tbl r v pl Ha Hf Hok Hp1 Hp2) as (r' & loc & H1 & H2 & _ & _ & H3).
  exists r', loc. split; [exact H1|]. split; [exact H2|].
  rewrite H3. unfold login_url_layout. rewrite Hnull. reflexivity.
Qed.

Lemma missing_login_url_is_not_checked_witness :
  exists r' loc,
    ngx_http_auth_cas_handler spec_escape_args
      (request_of conf_without_login_url granting_pool [] (bytes "/secure") [])
    = Ret (NGX_HTTP_MOVED_TEMPORARILY, r') /\
    location (headers_out r') = Some loc /\
    ngx_str_bytes (value loc) = bytes "?service=https%3A%2F%2Fapp.example.com%2F%2Fsecure".
Proof.
  destruct (@missing_login_url_is_not_checked spec_escape_args
              ngx_http_auth_cas_create_loc_conf
              {| auth_cas := 1;
                 auth_cas_cookie := ngx_null_string;
                 auth_cas_login_url := ngx_null_string;
                 auth_cas_service_url :=
                   ngx_string (bytes "https%3A%2F%2Fapp.example.com%2F") |}
              (request_of conf_without_login_url granting_pool [] (bytes "/secure") [])
              ngx_null_string granting_pool
              eq_refl eq_refl eq_refl ltac:(discriminate)
              (@scenario_inputs_ok conf_without_login_url granting_pool []
                 (bytes "/secure") [] ltac:(vm_compute; discriminate)
                 (readable_ngx_string _) eq_refl)
              eq_refl eq_refl eq_refl)
    as (_ & _ & r' & loc & H1 & H2 & H3).
  exists r', loc. split; [exact H1|]. split; [exact H2|]. rewrite H3. reflexivity.
Defined.

(** * Further properties of the module *)

(** ** find_cookie *)







(** X2. When the pair of the name is the last thing in its header, nothing
    is requested from the pool and the value handed back lies in the header
    itself, from behind the [=] on.  When a [;] follows, one block of [len+1]
    bytes is requested: granted, it holds the [len] bytes and a terminator
    behind them; refused, 0 is returned and the string behind [value] is
    left with its length and no data. *)
Theorem find_cookie_copies_only_before_semicolon
    (r : ngx_http_request_t) (h : ngx_table_elt_t) (before after : list cookie_pair)
    (q : cookie_pair) (g : option (list u_char)) (junk : list u_char)
    (name v : ngx_str_t) :
  cookies r = [h] ->
  carries h {| h_pairs := before ++ q :: after; h_rest := g; h_junk := junk |} ->
  readable name ->
  (forall q', In q' before -> c_name q' <> ngx_str_bytes name) ->
  c_name q = ngx_str_bytes name ->
  (after = [] -> g = None ->
   find_cookie r name v
   = Ret (1%Z, {| len := N.of_nat (length (c_value q));
                  data := Some (c_value q ++ x00 :: junk) |}, pool r)) /\
  (after <> [] \/ g <> None ->
   let rest := c_value q ++ ";"%byte :: render after g in
   (pool_fails (pool r) (pool_calls (pool r)) = false ->
    find_cookie r name v
    = Ret (1%Z, {| len := N.of_nat (length rest); data := Some (rest ++ [x00]) |},
           pool_next (pool r))) /\
   (pool_fails (pool r) (pool_calls (pool r)) = true ->
    find_cookie r name v
    = Ret (0%Z, {| len := N.of_nat (length rest); data := None |}, pool_next (pool r)))).
Proof.
  intros Hcs Hc Hr Hbefore Hq. unfold find_cookie. rewrite Hcs.
  rewrite (find_cookie_render _ _ (Forall2_cons _ _ Hc (Forall2_nil _)) Hr).
  cbn [find_pairs h_pairs h_rest h_junk].
  rewrite (@scan_pairs_first _ _ _ _ after g junk Hbefore Hq).
  split.
  - intros -> ->. reflexivity.
  - intro Hmore.
    assert (E : forall (A : Type) (x y : A),
               match after, g with [], None => x | _, _ => y end = y).
    { intros A x y. destruct after; [|reflexivity].
      destruct g; [reflexivity|]. destruct Hmore; congruence. }
    rewrite !E. cbv zeta. split; intros ->; reflexivity.
Qed.

(** The header [CASC=ST-123-abc]: no request to the pool, the value in
    place; the header [CASC=ST-123-abc; theme=dark] with a refusing pool. *)
Lemma find_cookie_copies_only_before_semicolon_witness :
  find_cookie (request_of scenario_conf (refusing_pool 0)
                 [cookie_header (bytes "CASC=ST-123-abc")] (bytes "/") [])
              (ngx_string CAS_COOKIE_NAME) ngx_null_string
  = Ret (1%Z, {| len := 10; data := Some (bytes "ST-123-abc" ++ [x00]) |},
         refusing_pool 0).
Proof.
  apply (proj1 (@find_cookie_copies_only_before_semicolon
           (request_of scenario_conf (refusing_pool 0)
              [cookie_header (bytes "CASC=ST-123-abc")] (bytes "/") [])
           (cookie_header (bytes "CASC=ST-123-abc"))
           [] []
           {| c_space := []; c_name := bytes "CASC"; c_value := bytes "ST-123-abc" |}
           None [] (ngx_string CAS_COOKIE_NAME) ngx_null_string
           eq_refl
           (@carries_cookie_header
              [ {| c_space := []; c_name := bytes "CASC"; c_value := bytes "ST-123-abc" |} ]
              None
              ltac:(repeat constructor; simpl;
                    try (intros c t E; injection E as <- _; reflexivity);
                    intuition discriminate)
              I eq_refl)
           (readable_ngx_string _)
           ltac:(intros q' [])
           eq_refl)); reflexivity.
Defined.




(** X4. A segment without [=] in front of a pair hides the pair: the name
    that is compared runs from the segment to the [=] of the pair, the [;]
    between them included, so that the cookie of the pair is not found. *)
Theorem name_only_segment_hides_next_cookie
    (r : ngx_http_request_t) (c0 : u_char) (seg ws nm val junk : list u_char)
    (name v : ngx_str_t) :
  let header := (c0 :: seg) ++ ";"%byte :: ws ++ nm ++ "="%byte :: val in
  cookies r = [raw_header (length header) (header ++ x00 :: junk)] ->
  isspace c0 = false ->
  ~ In "="%byte (c0 :: seg) ->
  Forall (fun c => isspace c = true) ws ->
  ~ In "="%byte nm ->
  ~ In ";"%byte val ->
  (N.of_nat (length header) < 2 ^ SIZE_WIDTH)%N ->
  readable name ->
  ngx_str_bytes name = nm ->
  find_cookie r name v = Ret (0%Z, v, pool r).
Proof.
  intros header Hcs Hc0 Hseg Hws Hnm Hval Hfit Hr Hname.
  set (q := {| c_space := []; c_name := (c0 :: seg) ++ ";"%byte :: ws ++ nm;
               c_value := val |}).
  assert (Hrender : header = render [q] None).
  { unfold header. cbn [render]. unfold render_pair. cbn [q c_space c_name c_value app].
    rewrite app_nil_r, <- !app_assoc. cbn [app]. rewrite <- !app_assoc. reflexivity. }
  assert (Hcarries : carries (raw_header (length header) (header ++ x00 :: junk))
                       {| h_pairs := [q]; h_rest := None; h_junk := junk |}).
  { rewrite Hrender in *. repeat split; cbn [h_pairs h_rest h_junk]; try assumption.
    constructor; [|constructor]. repeat split; cbn [q c_space c_name c_value].
    - constructor.
    - intros c t E. cbn [app] in E. injection E as <- _. exact Hc0.
    - intro Hin. apply in_app_or in Hin. destruct Hin as [Hin|[Hin|Hin]].
      + exact (Hseg Hin).
      + discriminate.
      + apply in_app_or in Hin. destruct Hin as [Hin|Hin]; [|exact (Hnm Hin)].
        rewrite Forall_forall in Hws. apply Hws in Hin. discriminate.
    - exact Hval. }
  unfold find_cookie. rewrite Hcs.
  rewrite (find_cookie_render _ _ (Forall2_cons _ _ Hcarries (Forall2_nil _)) Hr).
  cbn [find_pairs h_pairs h_rest h_junk]. rewrite scan_pairs_absent; [reflexivity|].
  intros q' [<-|[]]. cbn [q c_name]. rewrite Hname. intro E.
  apply (f_equal (@length u_char)) in E. rewrite !length_app in E. cbn [length] in E.
  rewrite length_app in E. lia.
Qed.

(** The header [foo; CASC=ST-123-abc]: the cookie [CASC] is not found. *)
Lemma name_only_segment_hides_next_cookie_witness :
  find_cookie (request_of scenario_conf granting_pool
                 [cookie_header (bytes "foo; CASC=ST-123-abc")] (bytes "/") [])
              (ngx_string CAS_COOKIE_NAME) ngx_null_string
  = Ret (0%Z, ngx_null_string, granting_pool).
Proof.
  apply (@name_only_segment_hides_next_cookie
           (request_of scenario_conf granting_pool
              [cookie_header (bytes "foo; CASC=ST-123-abc")] (bytes "/") [])
           "f"%byte (bytes "oo") (bytes " ") (bytes "CASC") (bytes "ST-123-abc") []
           (ngx_string CAS_COOKIE_NAME) ngx_null_string).
  - reflexivity.
  - reflexivity.
  - simpl. intuition discriminate.
  - repeat constructor.
  - simpl. intuition discriminate.
  - simpl. intuition discriminate.
  - reflexivity.
  - apply readable_ngx_string.
  - reflexivity.
Defined.

(** ** The handler *)





(** X6. The active gate lets no request through: whenever the handler
    returns, its status is the unauthorized status, the temporary redirect or
    the internal error, never [NGX_DECLINED].  It leaves the request as it
    is, except for the pool and, with the redirect only, for one output
    header, appended behind those there are: [Location], with hash 1, to
    which [headers_out.location] points. *)
Theorem handler_active_lets_nothing_through
    (tbl : u_char -> bool) (r r' : ngx_http_request_t) (status : Z) :
  auth_cas (loc_conf r) <> 0%Z ->
  ngx_http_auth_cas_handler tbl r = Ret (status, r') ->
  (status = NGX_HTTP_UNAUTHORIZED \/ status = NGX_HTTP_MOVED_TEMPORARILY \/
   status = NGX_HTTP_INTERNAL_SERVER_ERROR) /\
  status <> NGX_DECLINED /\
  cookies r' = cookies r /\ uri r' = uri r /\ args r' = args r /\
  loc_conf r' = loc_conf r /\
  (status <> NGX_HTTP_MOVED_TEMPORARILY -> headers_out r' = headers_out r) /\
  (status = NGX_HTTP_MOVED_TEMPORARILY ->
   exists loc,
     headers_out r' = {| headers := headers (headers_out r) ++ [loc];
                         location := Some loc |} /\
     hash loc = 1%N /\ ngx_str_bytes (key loc) = bytes "Location").
Proof.
  intros Ha. unfold ngx_http_auth_cas_handler.
  destruct (Z.eqb_spec (auth_cas (loc_conf r)) 0); [contradiction|].
  destruct (find_cookie r (auth_cas_cookie (loc_conf r)) ngx_null_string)
    as [[[found cookie] pl]| |]; cbn [bind]; try discriminate.
  assert (Hplain : forall st,
            st = NGX_HTTP_UNAUTHORIZED \/ st = NGX_HTTP_INTERNAL_SERVER_ERROR ->
            forall pl0,
            (st = NGX_HTTP_UNAUTHORIZED \/ st = NGX_HTTP_MOVED_TEMPORARILY \/
             st = NGX_HTTP_INTERNAL_SERVER_ERROR) /\
            st <> NGX_DECLINED /\
            cookies (with_pool r pl0) = cookies r /\ uri (with_pool r pl0) = uri r /\
            args (with_pool r pl0) = args r /\ loc_conf (with_pool r pl0) = loc_conf r /\
            (st <> NGX_HTTP_MOVED_TEMPORARILY ->
             headers_out (with_pool r pl0) = headers_out r) /\
            (st = NGX_HTTP_MOVED_TEMPORARILY ->
             exists loc,
               headers_out (with_pool r pl0)
               = {| headers := headers (headers_out r) ++ [loc]; location := Some loc |} /\
               hash loc = 1%N /\ ngx_str_bytes (key loc) = bytes "Location")).
  { intros st [-> | ->] pl0.
    - repeat split; try reflexivity; try discriminate. left. reflexivity.
    - repeat split; try reflexivity; try discriminate. right. right. reflexivity. }
  destruct (Z.eqb_spec found 0).
  - destruct (create_login_url tbl (with_pool r pl)) as [[[built loc] pl']| |];
      cbn [bind]; try discriminate.
    destruct (Z.eqb_spec built 0).
    + intro E. injection E as <- <-. apply (Hplain _ (or_intror eq_refl) pl').
    + unfold send_redirect, ngx_list_push.
      destruct (negb _); intro E; injection E as <- <-.
      * split; [right; left; reflexivity|]. split; [discriminate|].
        do 4 (split; [reflexivity|]). split; [intro H; contradiction H; reflexivity|].
        intros _. eexists. split; [reflexivity|]. split; [reflexivity|].
        apply ngx_str_bytes_ngx_string.
      * apply (Hplain _ (or_intror eq_refl) (pool_next pl')).
  - intro E. injection E as <- <-. apply (Hplain _ (or_introl eq_refl) pl).
Qed.

(** No cookie and a pool that refuses the block of the URL. *)
Lemma handler_active_lets_nothing_through_witness :
  NGX_HTTP_INTERNAL_SERVER_ERROR <> NGX_DECLINED /\
  headers_out (with_pool (request_of scenario_conf (refusing_pool 0) [] (bytes "/secure") [])
                 (pool_next (refusing_pool 0)))
  = {| headers := []; location := None |}.
Proof.
  destruct (@handler_active_lets_nothing_through spec_escape_args
              (request_of scenario_conf (refusing_pool 0) [] (bytes "/secure") [])
              (with_pool (request_of scenario_conf (refusing_pool 0) [] (bytes "/secure") [])
                 (pool_next (refusing_pool 0)))
              NGX_HTTP_INTERNAL_SERVER_ERROR
              ltac:(discriminate) eq_refl)
    as (_ & Hd & _ & _ & _ & _ & Hh & _).
  split; [exact Hd|]. apply Hh. discriminate.
Defined.






(** ** create_login_url *)

Section LoginUrlFacts.

Variable tbl : u_char -> bool.
Variable r : ngx_http_request_t.

Let bound : N :=
  (len (auth_cas_login_url (loc_conf r)) + sizeof CAS_SERVICE_PARAM
   + len (auth_cas_service_url (loc_conf r)) + len (uri r) * 3 + 3 + len (args r) * 3)%N.

(** The run of [create_login_url] with its block granted, the block in
    view: all of the layout goes through one cursor from offset 0. *)
Lemma create_login_url_run :
  url_inputs_ok r ->
  pool_fails (pool r) (pool_calls (pool r)) = false ->
  let c := put_all (login_url_layout tbl r)
             (cursor_at (map (pool_fill (pool r) (pool_calls (pool r)))
                           (seq 0 (N.to_nat bound)))) in
  create_login_url tbl r
  = Ret (1%Z, {| len := N.of_nat (pos c); data := Some (block (poke x00 c)) |},
         written (pool_next (pool r)) (poke x00 c)).
Proof.
  intros (Hl & Hs & Hu & Ha & Hfit) Hgrant c.
  unfold create_login_url, ngx_pnalloc. rewrite Hgrant, (size_t_fits Hfit).
  unfold ngx_cpymem.
  rewrite (read_readable Hl), read_literal, (read_readable Hs). cbn [bind].
  rewrite (escaped_to_readable _ _ Hu). cbn [bind].
  fold bound. set (b := map _ (seq 0 _)) in *.
  assert (Hq : (if (len (args r) =? 0)%N
                then Ret (put_all (escape tbl (ngx_str_bytes (uri r)))
                       (put_all (ngx_str_bytes (auth_cas_service_url (loc_conf r)))
                          (put_all CAS_SERVICE_PARAM
                             (put_all (ngx_str_bytes (auth_cas_login_url (loc_conf r)))
                                (cursor_at b)))))
                else escaped_to tbl
                       (put "F"%byte (put "3"%byte (put "%"%byte
                          (put_all (escape tbl (ngx_str_bytes (uri r)))
                             (put_all (ngx_str_bytes (auth_cas_service_url (loc_conf r)))
                                (put_all CAS_SERVICE_PARAM
                                   (put_all (ngx_str_bytes (auth_cas_login_url (loc_conf r)))
                                      (cursor_at b))))))))
                       (mem_of (args r)) (len (args r)))
               = Ret c).
  { unfold c, login_url_layout. rewrite !put_all_app.
    pose proof (length_ngx_str_bytes Ha) as Hla.
    destruct (N.eqb_spec (len (args r)) 0) as [Hz|Hnz].
    - destruct (ngx_str_bytes (args r)); [|simpl in Hla; lia].
      rewrite put_all_nil. reflexivity.
    - rewrite (escaped_to_readable _ _ Ha), put_percent_3F.
      destruct (ngx_str_bytes (args r)) eqn:Hq; [simpl in Hla; lia|].
      rewrite put_all_app. reflexivity. }
  rewrite Hq. reflexivity.
Qed.

(** X8. The string that [create_login_url] builds is a C string in a block
    of the size that was computed: behind its [len] bytes, inside the block,
    lies the terminator, and [len] stays below the size of the block. *)
Theorem create_login_url_terminates_its_string :
  url_inputs_ok r ->
  pool_fails (pool r) (pool_calls (pool r)) = false ->
  exists s,
    create_login_url tbl r = Ret (1%Z, s, pool_next (pool r)) /\
    nth_error (mem_of s) (N.to_nat (len s)) = Some x00 /\
    N.of_nat (length (mem_of s)) = bound /\
    (len s < bound)%N.
Proof.
  intros Hok Hgrant. pose proof (length_login_url_layout tbl Hok) as Hlen.
  rewrite (create_login_url_run Hok Hgrant). cbv zeta.
  set (b := map _ (seq 0 _)).
  assert (Hb : length b = N.to_nat bound).
  { unfold b. rewrite length_map, length_seq. reflexivity. }
  destruct (put_all_spec (login_url_layout tbl r) (tidy_cursor_at b)) as (Ht & Hst & Hp & Hbl).
  cbn [pos block cursor_at stream firstn overrun app] in Hp, Hbl, Hst.
  set (c := put_all (login_url_layout tbl r) (cursor_at b)) in *.
  fold bound in Hlen.
  assert (Hin : pos c < length (block c)) by lia.
  destruct (poke_inside x00 Ht Hin) as (_ & Hover).
  eexists. split; [rewrite (written_clean _ _ Hover); reflexivity|].
  unfold mem_of. cbn [len data]. rewrite Nat2N.id.
  assert (Hblock : block (poke x00 c)
                   = firstn (pos c) (block c) ++ x00 :: skipn (S (pos c)) (block c)).
  { unfold poke, put. destruct (Nat.ltb_spec (pos c) (length (block c))); [|lia].
    cbn [block]. apply store_spec. exact Hin. }
  repeat split.
  - rewrite Hblock, nth_error_app2 by (rewrite length_firstn; lia).
    rewrite length_firstn. replace (pos c - Nat.min (pos c) (length (block c))) with 0 by lia.
    reflexivity.
  - rewrite Hblock, length_app, length_firstn. cbn [length]. rewrite length_skipn. lia.
  - lia.
Qed.

(** X9. The length that [create_login_url] returns is the number of bytes
    it wrote: those of the login URL, of [?service=] and of the stored
    service URL, the bytes of the path and two more for each of them that is
    escaped and, for a query that is not empty, 3 for [%3F], its bytes and
    two more for each of them that is escaped. *)
Theorem create_login_url_length :
  url_inputs_ok r ->
  pool_fails (pool r) (pool_calls (pool r)) = false ->
  exists s,
    create_login_url tbl r = Ret (1%Z, s, pool_next (pool r)) /\
    len s = (len (auth_cas_login_url (loc_conf r)) + 9
             + len (auth_cas_service_url (loc_conf r))
             + (len (uri r) + 2 * ngx_escape_uri_null tbl (ngx_str_bytes (uri r)))
             + (if (len (args r) =? 0)%N then 0
                else 3 + len (args r)
                     + 2 * ngx_escape_uri_null tbl (ngx_str_bytes (args r))))%N.
Proof.
  intros Hok Hgrant.
  destruct (create_login_url_ok tbl Hok Hgrant) as (s & Hrun & _ & Hlen & _).
  exists s. split; [exact Hrun|]. rewrite Hlen.
  destruct Hok as (Hl & Hs & Hu & Ha & _).
  pose proof (length_ngx_str_bytes Hl). pose proof (length_ngx_str_bytes Hs).
  pose proof (length_ngx_str_bytes Hu). pose proof (length_ngx_str_bytes Ha) as Hla.
  pose proof (length_escape tbl (ngx_str_bytes (uri r))) as Eu.
  pose proof (length_escape tbl (ngx_str_bytes (args r))) as Ea.
  unfold login_url_layout. rewrite !length_app. change (length CAS_SERVICE_PARAM) with 9.
  destruct (N.eqb_spec (len (args r)) 0) as [Hz|Hnz].
  - destruct (ngx_str_bytes (args r)); [|simpl in Hla; lia]. cbn [length]. lia.
  - destruct (ngx_str_bytes (args r)) as [|x q] eqn:Eq; [simpl in Hla; lia|].
    rewrite length_app. change (length (bytes "%3F")) with 3. lia.
Qed.

End LoginUrlFacts.

(** Scenario 3 of spec 8: the string has 94 bytes and the terminator behind
    them, in a block of 107. *)
Lemma create_login_url_terminates_its_string_witness :
  exists s,
    create_login_url spec_escape_args
      (request_of scenario_conf granting_pool [] (bytes "/a b") (bytes "x=1&y=2"))
    = Ret (1%Z, s, pool_next granting_pool) /\
    nth_error (mem_of s) (N.to_nat (len s)) = Some x00 /\
    N.of_nat (length (mem_of s)) = 107%N.
Proof.
  destruct (@create_login_url_terminates_its_string spec_escape_args
              (request_of scenario_conf granting_pool [] (bytes "/a b") (bytes "x=1&y=2"))
              (@scenario_inputs_ok scenario_conf granting_pool [] (bytes "/a b")
                 (bytes "x=1&y=2") (readable_ngx_string _) (readable_ngx_string _) eq_refl)
              eq_refl)
    as (s & H1 & H2 & H3 & _).
  exists s. split; [exact H1|]. split; [exact H2|]. rewrite H3. reflexivity.
Defined.

Lemma create_login_url_length_witness :
  exists s,
    create_login_url spec_escape_args
      (request_of scenario_conf granting_pool [] (bytes "/a b") (bytes "x=1&y=2"))
    = Ret (1%Z, s, pool_next granting_pool) /\
    len s = 94%N.
Proof.
  destruct (@create_login_url_length spec_escape_args
              (request_of scenario_conf granting_pool [] (bytes "/a b") (bytes "x=1&y=2"))
              (@scenario_inputs_ok scenario_conf granting_pool [] (bytes "/a b")
                 (bytes "x=1&y=2") (readable_ngx_string _) (readable_ngx_string _) eq_refl)
              eq_refl)
    as (s & H1 & H2).
  exists s. split; [exact H1|]. rewrite H2. reflexivity.
Defined.

Lemma unescape_percent c rest : unescape (percent c ++ rest) = c :: unescape rest.
Proof. destruct c; reflexivity. Qed.

Lemma unescape_plain c rest : c <> "%"%byte -> unescape (c :: rest) = c :: unescape rest.
Proof. intro H. cbn [unescape]. rewrite (byte_eqb_neq H). reflexivity. Qed.

Lemma unescape_escape tbl s rest :
  tbl "%"%byte = true ->
  unescape (escape tbl s ++ rest) = s ++ unescape rest.
Proof.
  intro Hp. induction s as [|c s IH]; [reflexivity|].
  change (escape tbl (c :: s)) with ((if tbl c then percent c else [c]) ++ escape tbl s).
  rewrite <- app_assoc. destruct (tbl c) eqn:E.
  - rewrite unescape_percent, IH. reflexivity.
  - cbn [app]. rewrite unescape_plain by congruence. rewrite IH. reflexivity.
Qed.

Lemma escape_bytes tbl s c :
  In c (escape tbl s) -> tbl c = false \/ c = "%"%byte \/ is_upper_hex c = true.
Proof.
  induction s as [|x s IH]; [intros []|].
  change (escape tbl (x :: s)) with ((if tbl x then percent x else [x]) ++ escape tbl s).
  intro H. apply in_app_or in H. destruct H as [H|H]; [|exact (IH H)].
  destruct (tbl x) eqn:E.
  - destruct (percent_digits x) as (Hh & Hl & _).
    destruct H as [<-|[<-|[<-|[]]]].
    + right. left. reflexivity.
    + right. right. exact Hh.
    + right. right. exact Hl.
  - destruct H as [<-|[]]. left. exact E.
Qed.

(** X10. What [create_login_url] writes behind the stored service URL can be
    read back: under a table that escapes [%], decoding it gives the path of
    the request and, for a query that is not empty, a [?] and the query. *)
Theorem create_login_url_can_be_decoded (tbl : u_char -> bool) (r : ngx_http_request_t) :
  tbl "%"%byte = true ->
  url_inputs_ok r ->
  pool_fails (pool r) (pool_calls (pool r)) = false ->
  exists s written_for_request,
    create_login_url tbl r = Ret (1%Z, s, pool_next (pool r)) /\
    ngx_str_bytes s
    = (ngx_str_bytes (auth_cas_login_url (loc_conf r)) ++ CAS_SERVICE_PARAM
       ++ ngx_str_bytes (auth_cas_service_url (loc_conf r)))
      ++ written_for_request /\
    unescape written_for_request
    = ngx_str_bytes (uri r) ++ match ngx_str_bytes (args r) with
                               | [] => []
                               | q => "?"%byte :: q
                               end.
Proof.
  intros Hp Hok Hgrant.
  destruct (create_login_url_ok tbl Hok Hgrant) as (s & Hrun & Hbytes & _).
  exists s. eexists. split; [exact Hrun|]. split.
  - rewrite Hbytes. unfold login_url_layout. rewrite <- !app_assoc. reflexivity.
  - rewrite (unescape_escape _ _ _ Hp).
    destruct (ngx_str_bytes (args r)) as [|x q]; [reflexivity|].
    change (bytes "%3F") with (percent "?"%byte).
    rewrite unescape_percent.
    rewrite <- (app_nil_r (escape tbl (x :: q))), (unescape_escape _ _ _ Hp), app_nil_r.
    reflexivity.
Qed.

(** Scenario 3 of spec 8 read back: [/a b?x=1&y=2]. *)
Lemma create_login_url_can_be_decoded_witness :
  exists s written_for_request,
    create_login_url spec_escape_args
      (request_of scenario_conf granting_pool [] (bytes "/a b") (bytes "x=1&y=2"))
    = Ret (1%Z, s, pool_next granting_pool) /\
    ngx_str_bytes s
    = bytes "https://cas.example.com/login?service=https%3A%2F%2Fapp.example.com%2F"
      ++ written_for_request /\
    unescape written_for_request = bytes "/a b?x=1&y=2".
Proof.
  destruct (@create_login_url_can_be_decoded spec_escape_args
              (request_of scenario_conf granting_pool [] (bytes "/a b") (bytes "x=1&y=2"))
              eq_refl
              (@scenario_inputs_ok scenario_conf granting_pool [] (bytes "/a b")
                 (bytes "x=1&y=2") (readable_ngx_string _) (readable_ngx_string _) eq_refl)
              eq_refl)
    as (s & w & H1 & H2 & H3).
  exists s, w. split; [exact H1|]. split; [exact H2 | exact H3].
Defined.

(** X11. The request cannot put a byte that the table escapes into the
    location as it is: behind the stored service URL, every byte that
    [create_login_url] writes is a byte that the table lets through, a [%]
    or an upper-case hexadecimal digit.  So a [&] or a [#] of the path or the
    query, escaped by the table, never shows there. *)
Theorem create_login_url_writes_no_escaped_byte
    (tbl : u_char -> bool) (r : ngx_http_request_t) :
  url_inputs_ok r ->
  pool_fails (pool r) (pool_calls (pool r)) = false ->
  exists s written_for_request,
    create_login_url tbl r = Ret (1%Z, s, pool_next (pool r)) /\
    ngx_str_bytes s
    = (ngx_str_bytes (auth_cas_login_url (loc_conf r)) ++ CAS_SERVICE_PARAM
       ++ ngx_str_bytes (auth_cas_service_url (loc_conf r)))
      ++ written_for_request /\
    forall c, In c written_for_request ->
              tbl c = false \/ c = "%"%byte \/ is_upper_hex c = true.
Proof.
  intros Hok Hgrant.
  destruct (create_login_url_ok tbl Hok Hgrant) as (s & Hrun & Hbytes & _).
  exists s. eexists. split; [exact Hrun|]. split.
  - rewrite Hbytes. unfold login_url_layout. rewrite <- !app_assoc. reflexivity.
  - intros c Hin. apply in_app_or in Hin. destruct Hin as [Hin|Hin].
    + exact (escape_bytes _ _ _ Hin).
    + destruct (ngx_str_bytes (args r)) as [|x q]; [destruct Hin|].
      apply in_app_or in Hin. destruct Hin as [Hin|Hin]; [|exact (escape_bytes _ _ _ Hin)].
      destruct Hin as [<-|[<-|[<-|[]]]].
      * right. left. reflexivity.
      * right. right. reflexivity.
      * right. right. reflexivity.
Qed.

(** Scenario 3 of spec 8: no [&] behind the service URL. *)
Lemma create_login_url_writes_no_escaped_byte_witness :
  exists s written_for_request,
    create_login_url spec_escape_args
      (request_of scenario_conf granting_pool [] (bytes "/a b") (bytes "x=1&y=2"))
    = Ret (1%Z, s, pool_next granting_pool) /\
    ngx_str_bytes s
    = bytes "https://cas.example.com/login?service=https%3A%2F%2Fapp.example.com%2F"
      ++ written_for_request /\
    ~ In "&"%byte written_for_request.
Proof.
  destruct (@create_login_url_writes_no_escaped_byte spec_escape_args
              (request_of scenario_conf granting_pool [] (bytes "/a b") (bytes "x=1&y=2"))
              (@scenario_inputs_ok scenario_conf granting_pool [] (bytes "/a b")
                 (bytes "x=1&y=2") (readable_ngx_string _) (readable_ngx_string _) eq_refl)
              eq_refl)
    as (s & w & H1 & H2 & H3).
  exists s, w. split; [exact H1|]. split; [exact H2|].
  intro Hin. destruct (H3 _ Hin) as [H|[H|H]]; discriminate H.
Defined.

(** ** The directive auth_cas_service_url *)

Lemma store_skipn (l : list u_char) : forall i k b,
  i < k -> skipn k (store l i b) = skipn k l.
Proof.
  induction l as [|c l IH]; intros [|i] [|k] b H; simpl; try lia; try reflexivity.
  apply IH. lia.
Qed.

Lemma pos_put b c : pos (put b c) = S (pos c).
Proof. unfold put. destruct (pos c <? length (block c)); reflexivity. Qed.

(** Storing through a cursor leaves the block behind the cursor as it was. *)
Lemma put_all_keeps_rest bs : forall c k,
  pos c + length bs <= k ->
  skipn k (block (put_all bs c)) = skipn k (block c).
Proof.
  induction bs as [|b bs IH]; intros c k H; [reflexivity|].
  cbn [put_all length] in *. rewrite IH by (rewrite pos_put; lia).
  unfold put. destruct (pos c <? length (block c)); cbn [block]; [|reflexivity].
  apply store_skipn. lia.
Qed.

Lemma escape_plain tbl s : ngx_escape_uri_null tbl s = 0%N -> escape tbl s = s.
Proof.
  induction s as [|c s IH]; [reflexivity|].
  change (escape tbl (c :: s)) with ((if tbl c then percent c else [c]) ++ escape tbl s).
  cbn [ngx_escape_uri_null]. destruct (tbl c); intro H; [lia|].
  rewrite (IH H). reflexivity.
Qed.

(** X12. The directive [auth_cas_service_url] with an argument in which the
    table marks no byte: one block is asked for, the argument is stored
    unchanged with its terminator behind it, nothing is written outside the
    block and the other settings of the level stay as they are. *)
Theorem set_auth_cas_service_url_stores_plain_url
    (tbl : u_char -> bool) (p : ngx_pool_t) (value_ : ngx_str_t)
    (ctx : ngx_http_auth_cas_ctx_t) :
  readable value_ ->
  ngx_escape_uri_null tbl (ngx_str_bytes value_) = 0%N ->
  (len value_ + 1 < 2 ^ SIZE_WIDTH)%N ->
  pool_fails p (pool_calls p) = false ->
  set_auth_cas_service_url tbl p value_ ctx
  = Ret (NGX_CONF_OK,
         {| auth_cas := auth_cas ctx;
            auth_cas_cookie := auth_cas_cookie ctx;
            auth_cas_login_url := auth_cas_login_url ctx;
            auth_cas_service_url := ngx_string (ngx_str_bytes value_) |},
         pool_next p).
Proof.
  intros Hr Hn Hfit Hgrant.
  pose proof (length_ngx_str_bytes Hr) as Hlen.
  unfold set_auth_cas_service_url, ngx_escape_uri.
  rewrite (read_readable Hr). cbn [bind]. rewrite Hn, N.add_0_r.
  rewrite size_t_fits by lia.
  replace (Z.of_N (len value_) + 1)%Z with (Z.of_N (len value_ + 1)) by lia.
  rewrite size_t_fits by lia.
  unfold ngx_pcalloc. rewrite Hgrant. rewrite (escaped_to_readable tbl _ Hr).
  cbn [bind]. rewrite (escape_plain _ _ Hn).
  set (url := ngx_str_bytes value_) in *.
  set (b := repeat x00 (N.to_nat (len value_ + 1)) : list u_char).
  assert (Hb : b = (repeat x00 (length url) : list u_char) ++ ([x00] : list u_char)).
  { unfold b. replace (N.to_nat (len value_ + 1)) with (length url + 1) by lia.
    apply repeat_app. }
  destruct (put_all_spec url (tidy_cursor_at b)) as (Ht & Hst & Hp & Hbl).
  pose proof (@put_all_keeps_rest url (cursor_at b) (length url) (Nat.le_refl _)) as Hrest.
  cbn [pos block cursor_at stream firstn overrun app] in Hp, Hbl, Hst, Hrest.
  set (c := put_all url (cursor_at b)) in *.
  assert (Hlb : @length u_char b = S (length url)).
  { rewrite Hb, length_app, repeat_length. simpl. lia. }
  assert (Hover : overrun c = []).
  { destruct Ht as [[_ H]|[H _]]; [exact H | lia]. }
  assert (Hblock : block c = url ++ [x00]).
  { rewrite <- (firstn_skipn (length url) (block c)). f_equal.
    - unfold stream in Hst. rewrite Hover, app_nil_r, Hp in Hst. exact Hst.
    - rewrite Hrest, Hb. apply skipn_exact. rewrite repeat_length. reflexivity. }
  rewrite (written_clean _ _ Hover), Hblock.
  unfold ngx_string. replace (N.of_nat (length url)) with (len value_) by lia.
  reflexivity.
Qed.

(** The host [app.example.com] under a table of the class of the spec. *)
Lemma set_auth_cas_service_url_stores_plain_url_witness :
  set_auth_cas_service_url spec_escape_args granting_pool
    (ngx_string (bytes "app.example.com")) ngx_http_auth_cas_create_loc_conf
  = Ret (NGX_CONF_OK,
         {| auth_cas := NGX_CONF_UNSET;
            auth_cas_cookie := ngx_null_string;
            auth_cas_login_url := ngx_null_string;
            auth_cas_service_url := ngx_string (bytes "app.example.com") |},
         pool_next granting_pool).
Proof.
  exact (@set_auth_cas_service_url_stores_plain_url spec_escape_args granting_pool
           (ngx_string (bytes "app.example.com")) ngx_http_auth_cas_create_loc_conf
           (readable_ngx_string _) eq_refl eq_refl eq_refl).
Defined.

(** X13. A block refused to the directive [auth_cas_service_url] is not
    reported: the directive returns [NGX_CONF_OK], writes nothing and leaves
    the setting with NULL for its data; the merge that follows then puts the
    service URL of the level above in its place. *)
Theorem set_auth_cas_service_url_hides_refusal
    (tbl : u_char -> bool) (p : ngx_pool_t) (value_ : ngx_str_t)
    (ctx prev : ngx_http_auth_cas_ctx_t) :
  readable value_ ->
  pool_fails p (pool_calls p) = true ->
  exists ctx',
    set_auth_cas_service_url tbl p value_ ctx = Ret (NGX_CONF_OK, ctx', pool_next p) /\
    data (auth_cas_service_url ctx') = None /\
    auth_cas ctx' = auth_cas ctx /\
    auth_cas_cookie ctx' = auth_cas_cookie ctx /\
    auth_cas_login_url ctx' = auth_cas_login_url ctx /\
    ngx_http_auth_cas_merge_loc_conf prev ctx'
    = ngx_http_auth_cas_merge_loc_conf prev
        {| auth_cas := auth_cas ctx;
           auth_cas_cookie := auth_cas_cookie ctx;
           auth_cas_login_url := auth_cas_login_url ctx;
           auth_cas_service_url := ngx_null_string |} /\
    auth_cas_service_url (snd (ngx_http_auth_cas_merge_loc_conf prev ctx'))
    = auth_cas_service_url prev.
Proof.
  intros Hr Hrefuse.
  unfold set_auth_cas_service_url, ngx_escape_uri.
  rewrite (read_readable Hr). cbn [bind].
  unfold ngx_pcalloc. rewrite Hrefuse.
  eexists. split; [reflexivity|]. repeat split.
Qed.

(** The service URL of the scenarios, the first request to the pool refused,
    below a level that has [https%3A%2F%2Fother.example.com%2F]. *)
Lemma set_auth_cas_service_url_hides_refusal_witness :
  exists ctx',
    set_auth_cas_service_url spec_escape_args (refusing_pool 0)
      (ngx_string (bytes "https://app.example.com/")) ngx_http_auth_cas_create_loc_conf
    = Ret (NGX_CONF_OK, ctx', pool_next (refusing_pool 0)) /\
    data (auth_cas_service_url ctx') = None /\
    ngx_str_bytes
      (auth_cas_service_url
         (snd (ngx_http_auth_cas_merge_loc_conf
                 {| auth_cas := 1;
                    auth_cas_cookie := ngx_null_string;
                    auth_cas_login_url := ngx_null_string;
                    auth_cas_service_url :=
                      ngx_string (bytes "https%3A%2F%2Fother.example.com%2F") |}
                 ctx')))
    = bytes "https%3A%2F%2Fother.example.com%2F".
Proof.
  destruct (@set_auth_cas_service_url_hides_refusal spec_escape_args (refusing_pool 0)
              (ngx_string (bytes "https://app.example.com/"))
              ngx_http_auth_cas_create_loc_conf
              {| auth_cas := 1;
                 auth_cas_cookie := ngx_null_string;
                 auth_cas_login_url := ngx_null_string;
                 auth_cas_service_url :=
                   ngx_string (bytes "https%3A%2F%2Fother.example.com%2F") |}
              (readable_ngx_string _) eq_refl)
    as (ctx' & Hrun & Hdata & _ & _ & _ & _ & Hmerged).
  exists ctx'. split; [exact Hrun|]. split; [exact Hdata|].
  rewrite Hmerged. reflexivity.
Defined.

(** ** Levels of configuration *)

Lemma merge_value_settled conf prev default :
  default <> NGX_CONF_UNSET -> ngx_conf_merge_value conf prev default <> NGX_CONF_UNSET.
Proof.
  intro Hd. unfold ngx_conf_merge_value.
  destruct (Z.eqb_spec conf NGX_CONF_UNSET); [|assumption].
  destruct (Z.eqb_spec prev NGX_CONF_UNSET); assumption.
Qed.

Lemma merge_flag_off prev conf :
  auth_cas (snd (ngx_http_auth_cas_merge_loc_conf prev conf)) = 0%Z <->
  switched_off prev conf.
Proof.
  cbn [ngx_http_auth_cas_merge_loc_conf snd auth_cas].
  unfold ngx_conf_merge_value, switched_off, NGX_CONF_UNSET.
  destruct (Z.eqb_spec (auth_cas conf) (-1)); [destruct (Z.eqb_spec (auth_cas prev) (-1))|];
    lia.
Qed.

(** X14. Whatever the two levels hold, the merged configuration has what the
    handler reads without a check: the flag is set, to the value of the
    child, else of the parent, else 0; and the cookie name has data, and is a
    string that can be read if the names of the two levels are. *)
Theorem merge_loc_conf_settles_flag_and_cookie (prev conf : ngx_http_auth_cas_ctx_t) :
  let merged := snd (ngx_http_auth_cas_merge_loc_conf prev conf) in
  fst (ngx_http_auth_cas_merge_loc_conf prev conf) = NGX_CONF_OK /\
  auth_cas merged <> NGX_CONF_UNSET /\
  data (auth_cas_cookie merged) <> None /\
  (readable (auth_cas_cookie conf) -> readable (auth_cas_cookie prev) ->
   readable (auth_cas_cookie merged)).
Proof.
  cbn [ngx_http_auth_cas_merge_loc_conf snd fst auth_cas auth_cas_cookie].
  split; [reflexivity|]. split; [apply merge_value_settled; discriminate|].
  unfold ngx_conf_merge_str_value.
  destruct (data (auth_cas_cookie conf)) eqn:Hc.
  - split; [congruence | intros H _; exact H].
  - destruct (data (auth_cas_cookie prev)) eqn:Hp.
    + split; [congruence | intros _ H; exact H].
    + split; [discriminate | intros _ _; apply readable_ngx_string].
Qed.

(** X15. Merging is idempotent: a configuration that was merged under a
    parent is left as it is by a second merge under the same parent. *)
Theorem merge_loc_conf_idempotent (prev conf : ngx_http_auth_cas_ctx_t) :
  let merged := snd (ngx_http_auth_cas_merge_loc_conf prev conf) in
  snd (ngx_http_auth_cas_merge_loc_conf prev merged) = merged.
Proof.
  cbn [ngx_http_auth_cas_merge_loc_conf snd auth_cas auth_cas_cookie
       auth_cas_login_url auth_cas_service_url].
  f_equal.
  - unfold ngx_conf_merge_value.
    destruct (Z.eqb_spec (auth_cas conf) NGX_CONF_UNSET) as [Hc|Hc].
    + destruct (Z.eqb_spec (auth_cas prev) NGX_CONF_UNSET) as [Hp|Hp]; [reflexivity|].
      destruct (Z.eqb_spec (auth_cas prev) NGX_CONF_UNSET); [contradiction | reflexivity].
    + destruct (Z.eqb_spec (auth_cas conf) NGX_CONF_UNSET); [contradiction | reflexivity].
  - unfold ngx_conf_merge_str_value.
    destruct (data (auth_cas_cookie conf)) eqn:Hc; [rewrite Hc; reflexivity|].
    destruct (data (auth_cas_cookie prev)) eqn:Hp; [rewrite Hp; reflexivity|].
    reflexivity.
  - destruct (data (auth_cas_login_url conf)) eqn:Hc; [rewrite Hc; reflexivity|].
    destruct (data (auth_cas_login_url prev)); reflexivity.
  - destruct (data (auth_cas_service_url conf)) eqn:Hc; [rewrite Hc; reflexivity|].
    destruct (data (auth_cas_service_url prev)); reflexivity.
Qed.

(** X16. Three levels, merged from the outside in as nginx does: every
    setting of the location is that of the nearest level at which its
    directive was met.  Where it was met at none, the flag is 0 and the
    cookie name is [CASC], while the login URL and the service URL stay what
    the outermost level has, a string without data. *)
Theorem merge_loc_conf_takes_nearest_level (main srv loc : ngx_http_auth_cas_ctx_t) :
  let at_srv := snd (ngx_http_auth_cas_merge_loc_conf main srv) in
  let at_loc := snd (ngx_http_auth_cas_merge_loc_conf at_srv loc) in
  auth_cas at_loc
  = nearest flag_is_set [auth_cas loc; auth_cas srv; auth_cas main] 0%Z /\
  auth_cas_cookie at_loc
  = nearest has_data [auth_cas_cookie loc; auth_cas_cookie srv; auth_cas_cookie main]
      (ngx_string CAS_COOKIE_NAME) /\
  auth_cas_login_url at_loc
  = nearest has_data [auth_cas_login_url loc; auth_cas_login_url srv]
      (auth_cas_login_url main) /\
  auth_cas_service_url at_loc
  = nearest has_data [auth_cas_service_url loc; auth_cas_service_url srv]
      (auth_cas_service_url main).
Proof.
  cbn [ngx_http_auth_cas_merge_loc_conf snd auth_cas auth_cas_cookie
       auth_cas_login_url auth_cas_service_url].
  unfold nearest, flag_is_set, has_data, ngx_conf_merge_value, ngx_conf_merge_str_value.
  cbn [find]. repeat split.
  - destruct (auth_cas loc =? NGX_CONF_UNSET)%Z; [|reflexivity].
    destruct (auth_cas srv =? NGX_CONF_UNSET)%Z eqn:Hs; cbn [negb].
    + destruct (auth_cas main =? NGX_CONF_UNSET)%Z eqn:Hm; cbn [negb]; [|rewrite Hm];
        reflexivity.
    + rewrite Hs. reflexivity.
  - destruct (data (auth_cas_cookie loc)); [reflexivity|].
    destruct (data (auth_cas_cookie srv)) eqn:Hs.
    + rewrite Hs. reflexivity.
    + destruct (data (auth_cas_cookie main)) eqn:Hm; [rewrite Hm|]; reflexivity.
  - destruct (data (auth_cas_login_url loc)); [reflexivity|].
    destruct (data (auth_cas_login_url srv)) eqn:Hs; reflexivity.
  - destruct (data (auth_cas_service_url loc)); [reflexivity|].
    destruct (data (auth_cas_service_url srv)) eqn:Hs; reflexivity.
Qed.

Lemma handler_answer_not_declined tbl r r' :
  auth_cas (loc_conf r) <> 0%Z ->
  ngx_http_auth_cas_handler tbl r <> Ret (NGX_DECLINED, r').
Proof.
  intros Ha. unfold ngx_http_auth_cas_handler.
  destruct (Z.eqb_spec (auth_cas (loc_conf r)) 0) as [|_]; [contradiction|].
  destruct (find_cookie r (auth_cas_cookie (loc_conf r)) ngx_null_string)
    as [[[found v] pl]| |]; cbn [bind]; try discriminate.
  destruct (found =? 0)%Z; [|discriminate].
  destruct (create_login_url tbl (with_pool r pl)) as [[[built s] pl']| |];
    cbn [bind]; try discriminate.
  destruct (built =? 0)%Z; [discriminate|].
  unfold send_redirect, ngx_list_push.
  destruct (negb _); discriminate.
Qed.

(** X17. The gate is off unless a directive turns it on.  For a request of
    a location merged under its parent, the handler declines exactly when
    [auth_cas] is [off] at the location, or is missing there and [off] or
    missing at the parent; and then it hands the request back as it came,
    none of its headers read and nothing asked of the pool, whatever the
    other directives are. *)
Theorem handler_declines_iff_switched_off
    (tbl : u_char -> bool) (prev conf : ngx_http_auth_cas_ctx_t)
    (r : ngx_http_request_t) :
  loc_conf r = snd (ngx_http_auth_cas_merge_loc_conf prev conf) ->
  ((exists r', ngx_http_auth_cas_handler tbl r = Ret (NGX_DECLINED, r'))
   <-> switched_off prev conf) /\
  (switched_off prev conf -> ngx_http_auth_cas_handler tbl r = Ret (NGX_DECLINED, r)).
Proof.
  intro Hr.
  assert (Hon : switched_off prev conf ->
                ngx_http_auth_cas_handler tbl r = Ret (NGX_DECLINED, r)).
  { intro Hoff. apply handler_inactive. rewrite Hr. apply merge_flag_off. exact Hoff. }
  split; [|exact Hon]. split.
  - intros (r' & Hrun). apply merge_flag_off. rewrite <- Hr.
    destruct (Z.eq_dec (auth_cas (loc_conf r)) 0) as [H|H]; [exact H|].
    destruct (@handler_answer_not_declined tbl r r' H Hrun).
  - intro Hoff. exists r. exact (Hon Hoff).
Qed.

(** No directive of the module at either level, and a request whose cookie
    header is not even readable memory: declined, the request as it came. *)
Lemma handler_declines_iff_switched_off_witness :
  ngx_http_auth_cas_handler spec_escape_args
    (request_of (snd (ngx_http_auth_cas_merge_loc_conf
                        ngx_http_auth_cas_create_loc_conf
                        ngx_http_auth_cas_create_loc_conf))
       (refusing_pool 0) [raw_header 4 []] (bytes "/secure") [])
  = Ret (NGX_DECLINED,
         request_of (snd (ngx_http_auth_cas_merge_loc_conf
                            ngx_http_auth_cas_create_loc_conf
                            ngx_http_auth_cas_create_loc_conf))
           (refusing_pool 0) [raw_header 4 []] (bytes "/secure") []).
Proof.
  apply (proj2 (@handler_declines_iff_switched_off spec_escape_args
                  ngx_http_auth_cas_create_loc_conf ngx_http_auth_cas_create_loc_conf
                  (request_of (snd (ngx_http_auth_cas_merge_loc_conf
                                      ngx_http_auth_cas_create_loc_conf
                                      ngx_http_auth_cas_create_loc_conf))
                     (refusing_pool 0) [raw_header 4 []] (bytes "/secure") [])
                  eq_refl)).
  right. split; [reflexivity | right; reflexivity].
Defined.

(** ** From the directive to the redirect *)

(** The directive [auth_cas_service_url] with its block granted, for an
    argument with any number of bytes to escape: the other settings stay, and
    the stored string, which can be read, is the escaped argument cut to the
    length of the argument plus the number of its marked bytes. *)
Lemma set_auth_cas_service_url_run
    (tbl : u_char -> bool) (p : ngx_pool_t) (value_ : ngx_str_t)
    (ctx : ngx_http_auth_cas_ctx_t) :
  let url := ngx_str_bytes value_ in
  let n := ngx_escape_uri_null tbl url in
  readable value_ ->
  (len value_ + n + 1 < 2 ^ SIZE_WIDTH)%N ->
  pool_fails p (pool_calls p) = false ->
  exists ctx' p',
    set_auth_cas_service_url tbl p value_ ctx = Ret (NGX_CONF_OK, ctx', p') /\
    auth_cas ctx' = auth_cas ctx /\
    auth_cas_cookie ctx' = auth_cas_cookie ctx /\
    auth_cas_login_url ctx' = auth_cas_login_url ctx /\
    data (auth_cas_service_url ctx') <> None /\
    readable (auth_cas_service_url ctx') /\
    len (auth_cas_service_url ctx') = (len value_ + n)%N /\
    ngx_str_bytes (auth_cas_service_url ctx')
    = firstn (N.to_nat (len value_ + n)) (escape tbl url).
Proof.
  intros url n Hr Hfit Hgrant.
  assert (Hlen : N.of_nat (length url) = len value_).
  { unfold url. rewrite (length_ngx_str_bytes Hr). lia. }
  pose proof (length_escape tbl url) as Hesc. fold n in Hesc.
  unfold set_auth_cas_service_url, ngx_escape_uri.
  rewrite (read_readable Hr). cbn [bind]. fold url. fold n.
  rewrite size_t_fits by lia.
  replace (Z.of_N (len value_ + n) + 1)%Z with (Z.of_N (len value_ + n + 1)) by lia.
  rewrite size_t_fits by lia.
  unfold ngx_pcalloc. rewrite Hgrant. rewrite (escaped_to_readable tbl _ Hr).
  cbn [bind]. fold url.
  set (b := repeat x00 (N.to_nat (len value_ + n + 1)) : list u_char).
  assert (Hb : @length u_char b = N.to_nat (len value_ + n + 1)) by apply repeat_length.
  destruct (put_all_spec (escape tbl url) (tidy_cursor_at b)) as (Ht & Hst & Hp & Hbl).
  cbn [pos block cursor_at stream firstn overrun app] in Hp, Hbl, Hst.
  set (c := put_all (escape tbl url) (cursor_at b)) in *.
  assert (Hk : length (block c) = N.to_nat (len value_ + n + 1))
    by (rewrite Hbl; exact Hb).
  assert (Hpos : pos c = length (escape tbl url)) by exact Hp.
  assert (Hblock : firstn (N.to_nat (len value_ + n)) (block c)
                   = firstn (N.to_nat (len value_ + n)) (stream c)).
  { unfold stream. destruct Ht as [[Hin Ho]|[Hout _]].
    - rewrite Ho, app_nil_r, firstn_firstn. f_equal. lia.
    - assert (Hall : firstn (pos c) (block c) = block c) by (apply firstn_all2; lia).
      rewrite Hall, firstn_app.
      replace (N.to_nat (len value_ + n) - length (block c)) with 0 by lia.
      cbn [firstn]. rewrite app_nil_r. reflexivity. }
  do 2 eexists. split; [reflexivity|].
  cbn [auth_cas auth_cas_cookie auth_cas_login_url auth_cas_service_url len data].
  repeat split.
  - discriminate.
  - unfold readable, mem_of. cbn [len data]. lia.
  - unfold ngx_str_bytes, mem_of. cbn [len data].
    rewrite Hblock, Hst. reflexivity.
Qed.

(** X18. From the directive to the redirect.  The service URL is escaped
    once, when the directive is read; the merge keeps it, whatever the parent
    has; and the redirect of a request without the cookie carries it as it
    was stored, between [?service=] and the escaped path: the escaped
    argument of the directive cut to the length of the argument plus the
    number of its marked bytes. *)
Theorem service_url_directive_reaches_location
    (tbl : u_char -> bool) (p : ngx_pool_t) (value_ : ngx_str_t)
    (ctx prev : ngx_http_auth_cas_ctx_t)
    (r : ngx_http_request_t) (v : ngx_str_t) (pl : ngx_pool_t) :
  let url := ngx_str_bytes value_ in
  let n := ngx_escape_uri_null tbl url in
  readable value_ ->
  (len value_ + n + 1 < 2 ^ SIZE_WIDTH)%N ->
  pool_fails p (pool_calls p) = false ->
  exists ctx' p',
    set_auth_cas_service_url tbl p value_ ctx = Ret (NGX_CONF_OK, ctx', p') /\
    (loc_conf r = snd (ngx_http_auth_cas_merge_loc_conf prev ctx') ->
     auth_cas (loc_conf r) <> 0%Z ->
     readable (auth_cas_login_url (loc_conf r)) ->
     readable (uri r) ->
     readable (args r) ->
     (len (auth_cas_login_url (loc_conf r)) + sizeof CAS_SERVICE_PARAM
      + (len value_ + n) + len (uri r) * 3 + 3 + len (args r) * 3
      < 2 ^ SIZE_WIDTH)%N ->
     find_cookie r (auth_cas_cookie (loc_conf r)) ngx_null_string = Ret (0%Z, v, pl) ->
     pool_fails pl (pool_calls pl) = false ->
     pool_fails pl (S (pool_calls pl)) = false ->
     exists r' loc,
       ngx_http_auth_cas_handler tbl r = Ret (NGX_HTTP_MOVED_TEMPORARILY, r') /\
       location (headers_out r') = Some loc /\
       ngx_str_bytes (value loc)
       = ngx_str_bytes (auth_cas_login_url (loc_conf r))
         ++ CAS_SERVICE_PARAM
         ++ firstn (N.to_nat (len value_ + n)) (escape tbl url)
         ++ escape tbl (ngx_str_bytes (uri r))
         ++ match ngx_str_bytes (args r) with
            | [] => []
            | q => bytes "%3F" ++ escape tbl q
            end).
Proof.
  intros url n Hr Hfit Hgrant.
  destruct (@set_auth_cas_service_url_run tbl p value_ ctx Hr Hfit Hgrant)
    as (ctx' & p' & Hrun & _ & _ & _ & Hdata & Hread & Hlen & Hbytes).
  exists ctx', p'. split; [exact Hrun|].
  intros Hconf Ha Hlogin Huri Hargs Hbound Hf Hp1 Hp2.
  assert (Hs : auth_cas_service_url (loc_conf r) = auth_cas_service_url ctx').
  { rewrite Hconf. cbn [ngx_http_auth_cas_merge_loc_conf snd auth_cas_service_url].
    destruct (data (auth_cas_service_url ctx')); [reflexivity | contradiction]. }
  assert (Hok : url_inputs_ok r).
  { unfold url_inputs_ok. rewrite Hs, Hlen. repeat split; assumption. }
  destruct (@handler_redirects tbl r v pl Ha Hf Hok Hp1 Hp2)
    as (r' & loc & H1 & H2 & _ & _ & H3).
  exists r', loc. split; [exact H1|]. split; [exact H2|].
  rewrite H3. unfold login_url_layout. rewrite Hs, Hbytes. reflexivity.
Qed.

(** The directive [auth_cas_service_url https://app.example.com/] in a
    location that turns the gate on, and the request [/secure] without a
    cookie: of the 32 bytes of the escaped service URL the redirect carries
    28. *)
Lemma service_url_directive_reaches_location_witness :
  exists ctx' p' r' loc,
    set_auth_cas_service_url spec_escape_args granting_pool
      (ngx_string (bytes "https://app.example.com/"))
      {| auth_cas := 1;
         auth_cas_cookie := ngx_null_string;
         auth_cas_login_url := ngx_string (bytes "https://cas.example.com/login");
         auth_cas_service_url := ngx_null_string |}
    = Ret (NGX_CONF_OK, ctx', p') /\
    ngx_http_auth_cas_handler spec_escape_args
      (request_of (snd (ngx_http_auth_cas_merge_loc_conf
                          ngx_http_auth_cas_create_loc_conf ctx'))
         granting_pool [] (bytes "/secure") [])
    = Ret (NGX_HTTP_MOVED_TEMPORARILY, r') /\
    location (headers_out r') = Some loc /\
    ngx_str_bytes (value loc)
    = bytes "https://cas.example.com/login?service=https%3A%2F%2Fapp.example.co%2Fsecure".
Proof.
  pose (ctx := {| auth_cas := 1;
                  auth_cas_cookie := ngx_null_string;
                  auth_cas_login_url := ngx_string (bytes "https://cas.example.com/login");
                  auth_cas_service_url := ngx_null_string |}).
  pose (stored := match set_auth_cas_service_url spec_escape_args granting_pool
                          (ngx_string (bytes "https://app.example.com/")) ctx with
                  | Ret (_, ctx', _) => ctx'
                  | _ => ctx
                  end).
  destruct (@service_url_directive_reaches_location spec_escape_args granting_pool
              (ngx_string (bytes "https://app.example.com/")) ctx
              ngx_http_auth_cas_create_loc_conf
              (request_of (snd (ngx_http_auth_cas_merge_loc_conf
                                  ngx_http_auth_cas_create_loc_conf stored))
                 granting_pool [] (bytes "/secure") [])
              ngx_null_string granting_pool
              (readable_ngx_string _) eq_refl eq_refl)
    as (ctx' & p' & Hrun & Hloc).
  assert (Hstored : stored = ctx').
  { unfold stored. rewrite Hrun. reflexivity. }
  rewrite Hstored in Hloc.
  assert (Hctx' : auth_cas ctx' = 1%Z /\
                  auth_cas_login_url ctx' = ngx_string (bytes "https://cas.example.com/login") /\
                  auth_cas_cookie ctx' = ngx_null_string).
  { rewrite <- Hstored. repeat split. }
  destruct Hctx' as (Hflag & Hlogin & Hcookie).
  destruct Hloc as (r' & loc & H1 & H2 & H3).
  - reflexivity.
  - cbn [request_of loc_conf ngx_http_auth_cas_merge_loc_conf snd auth_cas].
    rewrite Hflag. discriminate.
  - cbn [request_of loc_conf ngx_http_auth_cas_merge_loc_conf snd auth_cas_login_url].
    rewrite Hlogin. apply readable_ngx_string.
  - apply readable_ngx_string.
  - apply readable_ngx_string.
  - cbn [request_of loc_conf ngx_http_auth_cas_merge_loc_conf snd auth_cas_login_url].
    rewrite Hlogin. reflexivity.
  - reflexivity.
  - reflexivity.
  - reflexivity.
  - exists ctx', p', r', loc. split; [exact Hrun|]. split; [exact H1|].
    split; [exact H2|]. rewrite H3.
    cbn [request_of loc_conf ngx_http_auth_cas_merge_loc_conf snd auth_cas_login_url].
    rewrite Hlogin. reflexivity.
Defined.

(** ** The handler answers *)


